(** * rn-prodeeplinks: a shallow embedding of the resolution library

    The TypeScript sources [license.ts], [types.ts], [fingerprint.ts],
    [api.ts] and [index.ts] are embedded as Rocq functions.

    Modelling conventions.
    - A JavaScript string is the list of its UTF-16 code units ([list N]);
      [lit] turns a Rocq literal into such a list.
    - Values follow the declared TypeScript types: a field declared
      [string | undefined] is an [option], a server reply is read through
      the fields the code looks at, with the types the code stores them at.
    - A JavaScript number that the code only copies or prints (screen size,
      timestamp, HTTP status) is an integer.
    - [async]/[await] is sequential composition.  Everything outside the
      program (network, clock, OS launch URL, device APIs) is an oracle in
      [env]; what the program does to the outside is appended to a trace.
    - Exceptions are explicit: a computation returns [Ok v] or [Throw e],
      and [try_catch] is the [try { } catch { }] statement.
    - [console.error] and [console.warn] have no effect in the model. *)

From Stdlib Require Import ZArith NArith List Ascii String Bool Lia DecimalString.
From stdpp Require Import gmap list.
Import ListNotations.

Local Open Scope N_scope.
Local Set Warnings "-register-all".

(** ** JavaScript strings *)

Module JsString.

Abbreviation jsstring := (list N).

Definition lit (s : string) : jsstring :=
  List.map N_of_ascii (list_ascii_of_string s).

Arguments lit : simpl never.

(** Truthiness of a string: only the empty string is falsy. *)
Definition truthy (s : jsstring) : bool :=
  match s with [] => false | _ :: _ => true end.

(** Truthiness of [string | null | undefined]. *)
Definition truthy_opt (o : option jsstring) : bool :=
  match o with Some s => truthy s | None => false end.

(** [a || b] on [string | undefined] operands with a string default. *)
Definition or_else (o : option jsstring) (d : jsstring) : jsstring :=
  match o with
  | Some s => if truthy s then s else d
  | None => d
  end.

(** [a || b] where both operands may be undefined. *)
Definition or_opt (o1 o2 : option jsstring) : option jsstring :=
  if truthy_opt o1 then o1 else o2.

Definition eqb (a b : jsstring) : bool := bool_decide (a = b).

Fixpoint starts_with (p s : jsstring) : bool :=
  match p, s with
  | [], _ => true
  | _ :: _, [] => false
  | a :: p', b :: s' => (a =? b) && starts_with p' s'
  end.

(** [String.prototype.includes]. *)
Fixpoint includes (s p : jsstring) : bool :=
  starts_with p s ||
  match s with
  | [] => false
  | _ :: s' => includes s' p
  end.

(** ECMAScript WhiteSpace and LineTerminator code points, which
    [String.prototype.trim] strips.  All of them are single code units. *)
Definition is_js_space (c : N) : bool :=
  existsb (N.eqb c)
    [9; 10; 11; 12; 13; 32; 160; 5760; 8232; 8233; 8239; 8287; 12288; 65279]
  || ((8192 <=? c) && (c <=? 8202)).

Fixpoint trim_start (s : jsstring) : jsstring :=
  match s with
  | [] => []
  | c :: s' => if is_js_space c then trim_start s' else s
  end.

Definition trim (s : jsstring) : jsstring :=
  rev (trim_start (rev (trim_start s))).

Definition whitespace_only (s : jsstring) : bool := forallb is_js_space s.

(** [String.prototype.split(sep)[0]] for a one-unit separator: the text
    before the first occurrence of [sep], the whole string if there is none. *)
Fixpoint split_head (sep : N) (s : jsstring) : jsstring :=
  match s with
  | [] => []
  | c :: s' => if c =? sep then [] else c :: split_head sep s'
  end.

(** Decimal rendering of an integer, as [Number.prototype.toString] and
    template literals print it. *)
Definition of_Z (z : Z) : jsstring :=
  lit (NilZero.string_of_int (Z.to_int z)).

End JsString.
Import JsString.

(** ** license.ts *)

Record LicenseValidationResult := {
  isValid : bool;
  lv_message : option jsstring
}.

(** [licenseKey] has type [string], so [!licenseKey] is emptiness and the
    [typeof] test is true. *)
Definition validateLicenseKeyFormat (licenseKey : jsstring)
  : LicenseValidationResult :=
  if negb (truthy licenseKey) || negb (truthy (trim licenseKey)) then
    {| isValid := false; lv_message := Some (lit "License key is required") |}
  else
    {| isValid := true; lv_message := None |}.

(** ** types.ts *)

Inductive platform_os := Ios | Android.

Definition platform_name (p : platform_os) : jsstring :=
  match p with Ios => lit "ios" | Android => lit "android" end.

Record DeviceFingerprint := {
  platform : platform_os;
  osVersion : jsstring;
  deviceId : jsstring;
  deviceModel : jsstring;
  manufacturer : option jsstring;
  screenResolution : jsstring;
  screenWidth : Z;
  screenHeight : Z;
  timezone : option jsstring;
  language : option jsstring;
  locale : option jsstring;
  appVersion : jsstring;
  carrier : option jsstring;
  connectionType : option jsstring;
  isSimulator : option bool;
  isRooted : option bool;
  ipAddress : option jsstring
}.

(** [url?: string | null]. *)
Inductive js_url := UrlAbsent | UrlNull | UrlStr (s : jsstring).

Definition url_truthy (u : js_url) : bool :=
  match u with UrlStr s => truthy s | _ => false end.

Record DeepLinkResponse := {
  success : bool;
  url : js_url;
  message : option jsstring;
  error : option jsstring
}.

(** Values stored in an analytics event ([[key: string]: any]). *)
Inductive evalue :=
| EUndef
| EStr (s : jsstring)
| ENum (z : Z)
| EBool (b : bool)
| EFingerprint (fp : DeviceFingerprint)
| EObj (fields : list (jsstring * evalue)).

(** [CustomDeepLinkAnalyticsEvent]: an object, keyed by property name. *)
Abbreviation analytics_event := (gmap (list N) evalue).

(** ** The outside world *)

Record jserror := {
  err_name : jsstring;
  err_message : jsstring
}.

Inductive request_body :=
| BodyValidate (licenseKey : jsstring)
| BodyResolve (licenseKey : jsstring) (fingerprint : DeviceFingerprint)
    (timestamp : Z)
| BodyEvent (payload : analytics_event).

(** One call of [fetch]: [req_timeout] is the delay after which the
    [AbortController] attached to the call fires, when there is one. *)
Record request := {
  req_url : jsstring;
  req_headers : list (jsstring * jsstring);
  req_body : request_body;
  req_timeout : option N
}.

(** The fields the code reads from a JSON reply. *)
Record api_body := {
  b_success : bool;
  b_valid : bool;
  b_url : option jsstring;
  b_message : option jsstring;
  b_error : option jsstring
}.

Definition empty_body : api_body :=
  {| b_success := false; b_valid := false; b_url := None;
     b_message := None; b_error := None |}.

(** What [response.json()] does: an object, [null] (reading a property of
    it throws a TypeError), or a rejection. *)
Inductive json_outcome :=
| JsonObject (d : api_body)
| JsonNull
| JsonInvalid (e : jserror).

Record response := {
  resp_status : N;
  resp_json : json_outcome
}.

(** [response.ok]. *)
Definition resp_ok (r : response) : bool :=
  (200 <=? resp_status r) && (resp_status r <=? 299).

Inductive net_outcome :=
| NetReject (e : jserror)
| NetResponse (r : response).

Inductive source :=
| SrcUniqueId | SrcModel | SrcManufacturer | SrcSystemVersion | SrcVersion
| SrcBuildNumber | SrcEmulator | SrcRooted | SrcDeviceLocales
| SrcDeviceLocale | SrcIntlLocale | SrcIntlTimeZone | SrcNetInfo
| SrcCarrier | SrcIpAddress.

Inductive event :=
| EvFetch (req : request)
| EvSleep (ms : N)
| EvProbe
| EvQuery (src : source)
| EvCallback (u : jsstring).

Inductive outcome (A : Type) :=
| Ok (a : A)
| Throw (e : jserror).
Arguments Ok {A} a.
Arguments Throw {A} e.

Inductive platform_version := PVNum (z : Z) | PVStr (s : jsstring).

(** [getDeviceLocales()] is read through [Array.isArray]. *)
Inductive locales_value := LocalesArray (l : list jsstring) | LocalesOther.

Record netinfo_state := {
  ni_type : jsstring;
  (** [Some ip]: [details] is an object with an [ipAddress] key *)
  ni_details_ip : option jsstring
}.

(** Device APIs.  A field of type [outcome T] is a call that returns or
    throws; [option (outcome T)] is a method that may be missing from the
    installed library (reached through [?.()]).  [Dimensions] and
    [Platform] are plain reads: the error handler of
    [generateDeviceFingerprint] itself reads them unguarded. *)
Record device_env := {
  dim_width : Z;
  dim_height : Z;
  platform_OS : platform_os;
  platform_Version : platform_version;
  getUniqueId : outcome jsstring;
  getModel : outcome jsstring;
  getManufacturer : outcome jsstring;
  getSystemVersion : outcome jsstring;
  getVersion : outcome jsstring;
  getBuildNumber : outcome jsstring;
  isEmulator : outcome bool;
  isDeviceRooted : option (outcome bool);
  getDeviceLocales : option (outcome locales_value);
  getDeviceLocale : option (outcome (option jsstring));
  intl_locale : outcome jsstring;
  intl_timeZone : outcome jsstring;
  netinfo_fetch : outcome netinfo_state;
  getCarrier : outcome jsstring;
  getIpAddress : option (outcome (option jsstring))
}.

(** The caller's callback: it returns, or throws. *)
Abbreviation callback := (jsstring -> option jserror).

Record env := {
  (** the outcome of the n-th [fetch] (counting from 0) *)
  net : nat -> request -> net_outcome;
  (** [Date.now()] after that many trace events *)
  now : nat -> Z;
  (** [Linking.getInitialURL()] *)
  getInitialURL : outcome (option jsstring);
  device : device_env
}.

(** Module state of [index.ts] and the trace of effects so far. *)
Record world := {
  storedLicenseKey : option jsstring;
  isInitialized : bool;
  trace : list event
}.

Definition initial_world : world :=
  {| storedLicenseKey := None; isInitialized := false; trace := [] |}.

Definition log (ev : event) (w : world) : world :=
  {| storedLicenseKey := storedLicenseKey w;
     isInitialized := isInitialized w;
     trace := trace w ++ [ev] |}.

Definition is_fetch (ev : event) : bool :=
  match ev with EvFetch _ => true | _ => false end.

Definition fetches (t : list event) : list event := List.filter is_fetch t.

Definition sleeps (t : list event) : list N :=
  flat_map (fun ev => match ev with EvSleep ms => [ms] | _ => [] end) t.

(** ** Computations: reader of [env], state [world], exceptions *)

Definition M (A : Type) : Type := env -> world -> outcome A * world.

Definition ret {A} (a : A) : M A := fun _ w => (Ok a, w).

Definition bind {A B} (m : M A) (k : A -> M B) : M B :=
  fun E w =>
    match m E w with
    | (Ok a, w') => k a E w'
    | (Throw e, w') => (Throw e, w')
    end.

Definition throw {A} (e : jserror) : M A := fun _ w => (Throw e, w).

Definition try_catch {A} (m : M A) (h : jserror -> M A) : M A :=
  fun E w =>
    match m E w with
    | (Ok a, w') => (Ok a, w')
    | (Throw e, w') => h e E w'
    end.

Notation "'let*' x ':=' m 'in' k" := (bind m (fun x => k))
  (at level 10, x name, m at level 100, k at level 200).
Notation "'run' m 'then' k" := (bind m (fun _ => k))
  (at level 10, m at level 100, k at level 200).

Definition lift_outcome {A} (o : outcome A) : M A :=
  match o with Ok a => ret a | Throw e => throw e end.

Definition emit (ev : event) : M unit := fun _ w => (Ok tt, log ev w).

Definition get_world : M world := fun _ w => (Ok w, w).

Definition set_state (k : option jsstring) (i : bool) : M unit :=
  fun _ w =>
    (Ok tt, {| storedLicenseKey := k; isInitialized := i; trace := trace w |}).

(** [fetch(url, init)]. *)
Definition fetch (req : request) : M response :=
  fun E w =>
    let n := List.length (fetches (trace w)) in
    match net E n req with
    | NetReject e => (Throw e, log (EvFetch req) w)
    | NetResponse r => (Ok r, log (EvFetch req) w)
    end.

(** [await new Promise(resolve => setTimeout(resolve, ms))]. *)
Definition sleep (ms : N) : M unit := emit (EvSleep ms).

Definition Date_now : M Z := fun E w => (Ok (now E (List.length (trace w))), w).

(** A call of a device API. *)
Definition query {A} (src : source) (f : device_env -> outcome A) : M A :=
  fun E w =>
    match f (device E) with
    | Ok a => (Ok a, log (EvQuery src) w)
    | Throw e => (Throw e, log (EvQuery src) w)
    end.

(** [api?.()]: [None] when the method is missing, without a call. *)
Definition query_opt {A} (src : source)
    (f : device_env -> option (outcome A)) : M (option A) :=
  fun E w =>
    match f (device E) with
    | None => (Ok None, w)
    | Some (Ok a) => (Ok (Some a), log (EvQuery src) w)
    | Some (Throw e) => (Throw e, log (EvQuery src) w)
    end.

Definition TypeError (msg : string) : jserror :=
  {| err_name := lit "TypeError"; err_message := lit msg |}.

(** Reading a property of a parsed reply: [null] has none. *)
Definition props (v : option api_body) : M api_body :=
  match v with
  | Some d => ret d
  | None => throw (TypeError "Cannot read properties of null")
  end.

(** [await response.json()]; [None] is the value [null]. *)
Definition json (r : response) : M (option api_body) :=
  match resp_json r with
  | JsonObject d => ret (Some d)
  | JsonNull => ret None
  | JsonInvalid e => throw e
  end.

(** [await response.json().catch(() => ({}))]. *)
Definition json_catch_empty (r : response) : M (option api_body) :=
  try_catch (json r) (fun _ => ret (Some empty_body)).

Definition ask : M env := fun E w => (Ok E, w).

(** ** fingerprint.ts *)

(** The fingerprint returned by the [catch] block. *)
Definition minimal_fingerprint (D : device_env) : DeviceFingerprint :=
  {| platform := platform_OS D;
     osVersion := match platform_Version D with
                  | PVNum z => of_Z z
                  | PVStr s => s
                  end;
     deviceId := lit "unknown";
     deviceModel := lit "unknown";
     manufacturer := None;
     screenResolution := of_Z (dim_width D) ++ lit "x" ++ of_Z (dim_height D);
     screenWidth := dim_width D;
     screenHeight := dim_height D;
     timezone := None;
     language := None;
     locale := None;
     appVersion := lit "unknown";
     carrier := None;
     connectionType := None;
     isSimulator := None;
     isRooted := None;
     ipAddress := None |}.

(** [Array.isArray(deviceLocales) && deviceLocales.length > 0
      ? deviceLocales[0] : undefined]. *)
Definition primary_locale (deviceLocales : option locales_value)
  : option jsstring :=
  match deviceLocales with
  | Some (LocalesArray (l :: _)) => Some l
  | _ => None
  end.

(** The hyphen that separates the subtags of a locale. *)
Definition hyphen : N := 45.

(** [(locale || '').split('-')[0] || 'en']. *)
Definition language_of (locale : jsstring) : jsstring :=
  or_else (Some (split_head hyphen (or_else (Some locale) []))) (lit "en").

(** The [try] block of [generateDeviceFingerprint]. *)
Definition collect_fingerprint : M DeviceFingerprint :=
  let* E := ask in
  let D := device E in
  let width := dim_width D in
  let height := dim_height D in
  let screenResolution := of_Z width ++ lit "x" ++ of_Z height in
  let* deviceId := query SrcUniqueId getUniqueId in
  let* deviceModel := query SrcModel getModel in
  let* manufacturer :=
    match platform_OS D with
    | Android => query SrcManufacturer getManufacturer
    | Ios => ret (lit "Apple")
    end in
  let* osVersion := query SrcSystemVersion getSystemVersion in
  let* appVersion := query SrcVersion getVersion in
  let* buildNumber := query SrcBuildNumber getBuildNumber in
  let* isSimulator := query SrcEmulator isEmulator in
  let* isRooted :=
    match platform_OS D with
    | Android =>
        let* r := query_opt SrcRooted isDeviceRooted in
        ret (default false r)
    | Ios => ret false
    end in
  let* deviceLocales := query_opt SrcDeviceLocales getDeviceLocales in
  let primaryLocale := primary_locale deviceLocales in
  let* legacy := query_opt SrcDeviceLocale getDeviceLocale in
  let legacyLocale := mjoin legacy in
  let* chosen :=
    if truthy_opt primaryLocale then ret primaryLocale
    else if truthy_opt legacyLocale then ret legacyLocale
    else let* l := query SrcIntlLocale intl_locale in ret (Some l) in
  let locale := or_else chosen (lit "en") in
  let language := language_of locale in
  let* timezone := query SrcIntlTimeZone intl_timeZone in
  let* netInfo := query SrcNetInfo netinfo_fetch in
  let connectionType := ni_type netInfo in
  let* carrier :=
    match platform_OS D with
    | Ios => let* c := query SrcCarrier getCarrier in ret (Some c)
    | Android => ret None
    end in
  let* ipAddress :=
    try_catch
      (let* got := query_opt SrcIpAddress getIpAddress in
       let ip := mjoin got in
       if negb (truthy_opt ip) && bool_decide (is_Some (ni_details_ip netInfo))
       then ret (ni_details_ip netInfo)
       else ret ip)
      (fun _ => ret None) in
  ret {| platform := platform_OS D;
         osVersion := osVersion;
         deviceId := deviceId;
         deviceModel := deviceModel;
         manufacturer := Some manufacturer;
         screenResolution := screenResolution;
         screenWidth := width;
         screenHeight := height;
         timezone := Some timezone;
         language := Some language;
         locale := Some locale;
         appVersion := appVersion ++ lit " (" ++ buildNumber ++ lit ")";
         carrier := carrier;
         connectionType :=
           if truthy connectionType then Some connectionType else None;
         isSimulator := Some isSimulator;
         isRooted := Some isRooted;
         ipAddress := ipAddress |}.

Definition generateDeviceFingerprint : M DeviceFingerprint :=
  try_catch collect_fingerprint
    (fun _ => let* E := ask in ret (minimal_fingerprint (device E))).

(** ** api.ts *)

Definition BASE_API_URL : jsstring := lit "https://api.prodeeplinks.com".
Definition ANALYTICS_ENDPOINT : jsstring :=
  BASE_API_URL ++ lit "/custom-deep-link/track/event".

Definition failure (msg : jsstring) : DeepLinkResponse :=
  {| success := false; url := UrlAbsent; message := None; error := Some msg |}.

Definition json_headers (licenseKey : option jsstring)
  : list (jsstring * jsstring) :=
  (lit "Content-Type", lit "application/json") ::
  match licenseKey with
  | Some k => if truthy k then [(lit "x-license-key", k)] else []
  | None => []
  end.

(** The [fetch] call of [fetchDeepLinkUrl]: a POST of [payload] with the
    license key in the [x-license-key] header and an abort timer. *)
Definition resolve_request (endpoint licenseKey : jsstring)
    (payload : request_body) (timeout : N) : request :=
  {| req_url := endpoint;
     req_headers :=
       [(lit "Content-Type", lit "application/json");
        (lit "x-license-key", licenseKey)];
     req_body := payload;
     req_timeout := Some timeout |}.

Definition fetchDeepLinkUrl (licenseKey : jsstring)
    (fingerprint : DeviceFingerprint) (apiEndpoint : option jsstring)
    (timeout : option N) : M DeepLinkResponse :=
  let timeout := default 10000 timeout in
  let endpoint := or_else apiEndpoint BASE_API_URL in
  try_catch
    (let validation := validateLicenseKeyFormat licenseKey in
     if negb (isValid validation) then
       ret (failure (or_else (lv_message validation) (lit "Invalid license key")))
     else
       let* timestamp := Date_now in
       let payload := BodyResolve licenseKey fingerprint timestamp in
       try_catch
         (let* response := fetch (resolve_request endpoint licenseKey payload timeout) in
          if negb (resp_ok response) then
            let* parsed := json_catch_empty response in
            let* errorData := props parsed in
            ret (failure
                   (or_else (b_message errorData)
                      (lit "API error: " ++ of_Z (Z.of_N (resp_status response)))))
          else
            let* parsed := json response in
            let* data := props parsed in
            if b_success data then
              if truthy_opt (b_url data) then
                ret {| success := true;
                       url := UrlStr (default [] (b_url data));
                       message := b_message data;
                       error := None |}
              else
                ret {| success := true;
                       url := UrlNull;
                       message :=
                         Some (or_else (b_message data)
                                 (lit "No deep link available"));
                       error := None |}
            else
              ret (failure
                     (or_else (b_message data) (lit "No URL returned from API"))))
         (fun fetchError =>
            if eqb (err_name fetchError) (lit "AbortError") then
              ret (failure (lit "Request timeout"))
            else throw fetchError))
    (fun error =>
       ret (failure
              (or_else (Some (err_message error))
                 (lit "Failed to fetch deep link URL")))).

(** [result.error?.includes(needle)], as a condition. *)
Definition error_includes (r : DeepLinkResponse) (needle : jsstring) : bool :=
  match error r with
  | Some e => includes e needle
  | None => false
  end.

(** The failures after which no further attempt is made. *)
Definition no_retry (r : DeepLinkResponse) : bool :=
  error_includes r (lit "license") || error_includes r (lit "Invalid").

(** The [for] loop of [fetchDeepLinkUrlWithRetry], from [attempt] on.
    [fuel] bounds the iterations; [S retryAttempts] is enough, and both
    ways out of the loop return the same value. *)
Fixpoint retry_loop (fuel : nat) (once : M DeepLinkResponse)
    (retryAttempts attempt : nat) (lastError : option DeepLinkResponse)
  : M DeepLinkResponse :=
  let after_loop :=
    ret (default (failure (lit "Failed after retries")) lastError) in
  match fuel with
  | O => after_loop
  | S fuel' =>
      if (attempt <=? retryAttempts)%nat then
        let* result := once in
        if success result then ret result
        else if no_retry result then ret result
        else
          run (if (attempt <? retryAttempts)%nat
               then sleep (1000 * N.of_nat attempt)
               else ret tt)
          then retry_loop fuel' once retryAttempts (S attempt) (Some result)
      else after_loop
  end.

Definition fetchDeepLinkUrlWithRetry (licenseKey : jsstring)
    (fingerprint : DeviceFingerprint) (retryAttempts : option nat)
    (apiEndpoint : option jsstring) (timeout : option N)
  : M DeepLinkResponse :=
  let retryAttempts := default 3%nat retryAttempts in
  retry_loop (S retryAttempts)
    (fetchDeepLinkUrl licenseKey fingerprint apiEndpoint timeout)
    retryAttempts 1%nat None.

Record license_init_result := {
  iv_success : bool;
  iv_error : option jsstring;
  iv_status : option N;
  iv_data : option (option api_body)
}.

(** The [fetch] call of [validateLicenseInit]. *)
Definition validate_request (endpoint licenseKey : jsstring) : request :=
  {| req_url := endpoint;
     req_headers :=
       [(lit "Content-Type", lit "application/json");
        (lit "x-license-key", licenseKey)];
     req_body := BodyValidate licenseKey;
     req_timeout := None |}.

Definition validateLicenseInit (licenseKey : jsstring)
  : M license_init_result :=
  try_catch
    (let endpoint := BASE_API_URL ++ lit "/custom-deep-link/license/validate" in
     let* res := fetch (validate_request endpoint licenseKey) in
     let* data := json_catch_empty res in
     if negb (resp_ok res) then
       (* data?.message || data?.error || 'License validation failed' *)
       let message :=
         or_else (or_opt (d ← data; b_message d) (d ← data; b_error d))
           (lit "License validation failed") in
       ret {| iv_success := false; iv_error := Some message;
              iv_status := Some (resp_status res); iv_data := Some data |}
     else
       let* d := props data in
       if negb (b_success d) || negb (b_valid d) then
         let message :=
           or_else (or_opt (b_message d) (b_error d))
             (lit "License is not valid") in
         ret {| iv_success := false; iv_error := Some message;
                iv_status := Some (resp_status res); iv_data := Some data |}
       else
         ret {| iv_success := true; iv_error := None;
                iv_status := Some (resp_status res); iv_data := Some data |})
    (fun e =>
       ret {| iv_success := false;
              iv_error :=
                Some (or_else (Some (err_message e))
                        (lit "License validation request failed"));
              iv_status := None; iv_data := None |}).

(** What the analytics functions return (declared [any]): the parsed
    reply, or the object [{ success: false, error }]. *)
Inductive track_result :=
| TrackReply (data : option api_body)
| TrackFailure (error : jsstring).

(** The [fetch] call of [trackCustomDeepLinkEvent]. *)
Definition analytics_request (event : analytics_event)
    (licenseKey : option jsstring) : request :=
  {| req_url := ANALYTICS_ENDPOINT;
     req_headers := json_headers licenseKey;
     req_body := BodyEvent event;
     req_timeout := None |}.

Definition trackCustomDeepLinkEvent (event : analytics_event)
    (licenseKey : option jsstring) : M track_result :=
  try_catch
    (let* res := fetch (analytics_request event licenseKey) in
     let* data := json_catch_empty res in
     ret (TrackReply data))
    (fun e =>
       ret (TrackFailure
              (or_else (Some (err_message e))
                 (lit "Analytics event tracking failed")))).

(** ** index.ts *)

Definition DEFAULT_API_ENDPOINT : jsstring :=
  lit "https://api.prodeeplink.com/v1/deeplink".

Definition NOT_INITIALIZED : jsstring :=
  lit "Please call init() first with your license key".

Record init_result := {
  init_success : bool;
  init_error : option jsstring
}.

Definition init (licenseKey : jsstring) : M init_result :=
  try_catch
    (let validation := validateLicenseKeyFormat licenseKey in
     if negb (isValid validation) then
       ret {| init_success := false;
              init_error :=
                Some (or_else (lv_message validation)
                        (lit "Invalid license key")) |}
     else
       let* remoteValidation := validateLicenseInit licenseKey in
       if negb (iv_success remoteValidation) then
         ret {| init_success := false;
                init_error :=
                  Some (or_else (iv_error remoteValidation)
                          (lit "License validation failed")) |}
       else
         run set_state (Some licenseKey) true then
         ret {| init_success := true; init_error := None |})
    (fun error =>
       ret {| init_success := false;
              init_error :=
                Some (or_else (Some (err_message error))
                        (lit "Failed to initialize")) |}).

(** The module is unusable: the test that opens [getDeepLink] and
    [trackAnalyticsEvent]. *)
Definition not_initialized (w : world) : bool :=
  negb (isInitialized w) || negb (truthy_opt (storedLicenseKey w)).

Definition trackAnalyticsEvent (event : analytics_event) : M track_result :=
  let* w := get_world in
  if not_initialized w then ret (TrackFailure NOT_INITIALIZED)
  else
    (* const { licenseKey: _ignored, ...payload } = event *)
    let payload : analytics_event := delete (lit "licenseKey") event in
    trackCustomDeepLinkEvent payload (storedLicenseKey w).

Inductive link_source := Linking | Api.

Definition source_name (s : link_source) : jsstring :=
  match s with Linking => lit "linking" | Api => lit "api" end.

Definition resolved_event (u : jsstring) (src : link_source)
    (fingerprint : option DeviceFingerprint) : analytics_event :=
  list_to_map
    [(lit "eventType", EStr (lit "deeplink"));
     (lit "eventName", EStr (lit "pro_track"));
     (lit "category", EStr (source_name src));
     (lit "action", EStr (lit "open"));
     (lit "label", EStr u);
     (lit "properties",
       EObj [(lit "shortUrl", EStr u);
             (lit "source", EStr (source_name src));
             (lit "fingerprint",
               match fingerprint with
               | Some fp => EFingerprint fp
               | None => EUndef
               end)])].

Definition trackDeepLinkResolved (u : jsstring) (src : link_source)
    (fingerprint : option DeviceFingerprint) : M unit :=
  try_catch
    (run trackAnalyticsEvent (resolved_event u src fingerprint) then ret tt)
    (fun _ => ret tt).

(** [await Linking.getInitialURL()]. *)
Definition Linking_getInitialURL : M (option jsstring) :=
  run emit EvProbe then
  let* E := ask in
  lift_outcome (getInitialURL E).

(** [callback(url)]. *)
Definition call (f : callback) (u : jsstring) : M unit :=
  run emit (EvCallback u) then
  match f u with
  | None => ret tt
  | Some e => throw e
  end.

Definition url_text (u : js_url) : jsstring :=
  match u with UrlStr s => s | _ => [] end.

Definition getDeepLink (cb : option callback) : M DeepLinkResponse :=
  let* w := get_world in
  if not_initialized w then
    ret {| success := false; url := UrlAbsent; message := None;
           error := Some NOT_INITIALIZED |}
  else
    try_catch
      (let* initialUrl := Linking_getInitialURL in
       if truthy_opt initialUrl then
         let u := default [] initialUrl in
         run try_catch
               (let* fingerprint := generateDeviceFingerprint in
                trackDeepLinkResolved u Linking (Some fingerprint))
               (fun _ => ret tt) then
         run match cb with Some f => call f u | None => ret tt end then
         ret {| success := true; url := UrlStr u; message := None;
                error := None |}
       else
         let* fingerprint := generateDeviceFingerprint in
         let* w1 := get_world in
         let* result :=
           fetchDeepLinkUrlWithRetry (default [] (storedLicenseKey w1))
             fingerprint (Some 3%nat) (Some DEFAULT_API_ENDPOINT) None in
         let usable := success result && url_truthy (url result) in
         run (if usable then
                try_catch
                  (trackDeepLinkResolved (url_text (url result)) Api
                     (Some fingerprint))
                  (fun _ => ret tt)
              else ret tt) then
         run match cb with
             | Some f => if usable then call f (url_text (url result)) else ret tt
             | None => ret tt
             end then
         if negb (success result) || negb (url_truthy (url result)) then
           ret {| success := true; url := UrlNull;
                  message := Some (lit "No deep link available");
                  error := None |}
         else ret result)
      (fun error =>
         ret {| success := false; url := UrlAbsent; message := None;
                error :=
                  Some (or_else (Some (err_message error))
                          (lit "Unknown error occurred")) |}).

Definition isReady (w : world) : bool :=
  isInitialized w && bool_decide (storedLicenseKey w <> None).

Definition reset : M unit := set_state None false.

(** ** api.ts: the custom endpoints *)

(** [opts] of [validateLicenseCustom]; a missing [opts] is the record of
    missing fields. *)
Record validate_opts := {
  vo_baseUrl : option jsstring;
  vo_apiPrefix : option jsstring;
  vo_domain : option jsstring;
  vo_ipAddress : option jsstring
}.

(** What [validateLicenseCustom] returns: the parsed reply as it is, or
    the object [{ success: false, error }]. *)
Inductive custom_validation :=
| CustomReply (data : option api_body)
| CustomFailure (error : jsstring).

(** The body [{ licenseKey, domain, ipAddress }], as a JSON object. *)
Definition custom_validate_body (licenseKey domain ip : jsstring)
  : analytics_event :=
  list_to_map
    [(lit "licenseKey", EStr licenseKey);
     (lit "domain", EStr domain);
     (lit "ipAddress", EStr ip)].

Definition validateLicenseCustom (licenseKey : jsstring)
    (opts : option validate_opts) : M custom_validation :=
  try_catch
    (let base := trim (or_else (o ← opts; vo_baseUrl o) []) in
     let prefix := trim (or_else (o ← opts; vo_apiPrefix o) []) in
     let endpoint := base ++ prefix ++ lit "/custom-deep-link/license/validate" in
     let body :=
       custom_validate_body licenseKey
         (or_else (o ← opts; vo_domain o) [])
         (or_else (o ← opts; vo_ipAddress o) []) in
     let* res :=
       fetch {| req_url := endpoint;
                req_headers := [(lit "Content-Type", lit "application/json")];
                req_body := BodyEvent body;
                req_timeout := None |} in
     let* json := json_catch_empty res in
     ret (CustomReply json))
    (fun e =>
       ret (CustomFailure
              (or_else (Some (err_message e)) (lit "License validate failed")))).

Record FingerprintBasicPayload := {
  fb_userAgent : jsstring;
  fb_language : jsstring;
  fb_platform : jsstring;
  fb_screenResolution : jsstring;
  fb_timezone : jsstring;
  fb_timezoneOffset : Z
}.

Record FingerprintNetworkPayload := {
  fn_ipAddress : jsstring;
  fn_connectionType : jsstring
}.

Record FingerprintDevicePayload := {
  fd_deviceModel : jsstring;
  fd_osVersion : jsstring;
  fd_appVersion : jsstring
}.

Record FingerprintMatchPayload := {
  fm_basic : FingerprintBasicPayload;
  fm_network : FingerprintNetworkPayload;
  fm_device : FingerprintDevicePayload;
  fm_userId : option jsstring
}.

(** [JSON.stringify(payload)]: the payload as a JSON object; an undefined
    [userId] leaves no key. *)
Definition match_payload_json (p : FingerprintMatchPayload) : analytics_event :=
  let base : analytics_event :=
    list_to_map
      [(lit "basic",
         EObj [(lit "userAgent", EStr (fb_userAgent (fm_basic p)));
               (lit "language", EStr (fb_language (fm_basic p)));
               (lit "platform", EStr (fb_platform (fm_basic p)));
               (lit "screenResolution", EStr (fb_screenResolution (fm_basic p)));
               (lit "timezone", EStr (fb_timezone (fm_basic p)));
               (lit "timezoneOffset", ENum (fb_timezoneOffset (fm_basic p)))]);
       (lit "network",
         EObj [(lit "ipAddress", EStr (fn_ipAddress (fm_network p)));
               (lit "connectionType", EStr (fn_connectionType (fm_network p)))]);
       (lit "device",
         EObj [(lit "deviceModel", EStr (fd_deviceModel (fm_device p)));
               (lit "osVersion", EStr (fd_osVersion (fm_device p)));
               (lit "appVersion", EStr (fd_appVersion (fm_device p)))])] in
  match fm_userId p with
  | Some u => <[lit "userId" := EStr u]> base
  | None => base
  end.

(** The slash, which the pattern [/\/+$/] matches. *)
Definition slash : N := 47.

Fixpoint drop_slashes (s : jsstring) : jsstring :=
  match s with
  | [] => []
  | c :: s' => if c =? slash then drop_slashes s' else s
  end.

(** [s.replace(/\/+$/, '')]: the string without its trailing slashes. *)
Definition strip_trailing_slashes (s : jsstring) : jsstring :=
  rev (drop_slashes (rev s)).

(** What [matchFingerprintCustom] returns: the parsed reply as it is, or
    the object [{ matched: false, matchConfidence: 0, error }]. *)
Inductive match_result :=
| MatchReply (data : option api_body)
| MatchFailure (error : jsstring).

Definition match_endpoint (baseUrl : option jsstring) : jsstring :=
  strip_trailing_slashes (trim (or_else baseUrl BASE_API_URL))
  ++ lit "/custom-deep-link/fingerprint/match".

Definition matchFingerprintCustom (payload : FingerprintMatchPayload)
    (baseUrl licenseKey : option jsstring) : M match_result :=
  try_catch
    (let base := strip_trailing_slashes (trim (or_else baseUrl BASE_API_URL)) in
     let endpoint := base ++ lit "/custom-deep-link/fingerprint/match" in
     let* res :=
       fetch {| req_url := endpoint;
                req_headers := json_headers licenseKey;
                req_body := BodyEvent (match_payload_json payload);
                req_timeout := None |} in
     let* data := json_catch_empty res in
     ret (MatchReply data))
    (fun e =>
       ret (MatchFailure
              (or_else (Some (err_message e)) (lit "Fingerprint match failed")))).

(** ** index.ts: the class [ProDeepLink] *)

Record ProDeepLink := {
  pd_licenseKey : jsstring
}.

(** [new ProDeepLink(config)]. *)
Definition ProDeepLink_new (licenseKey : jsstring) : outcome ProDeepLink :=
  let validation := validateLicenseKeyFormat licenseKey in
  if negb (isValid validation) then
    Throw {| err_name := lit "Error";
             err_message :=
               or_else (lv_message validation) (lit "Invalid license key") |}
  else Ok {| pd_licenseKey := licenseKey |}.

Definition getDeepLinkUrl (this : ProDeepLink) : M DeepLinkResponse :=
  let* remoteValidation := validateLicenseInit (pd_licenseKey this) in
  if negb (iv_success remoteValidation) then
    ret {| success := false; url := UrlAbsent; message := None;
           error :=
             Some (or_else (iv_error remoteValidation)
                     (lit "License validation failed")) |}
  else
    let* fingerprint := generateDeviceFingerprint in
    let* result :=
      fetchDeepLinkUrlWithRetry (pd_licenseKey this) fingerprint (Some 3%nat)
        (Some DEFAULT_API_ENDPOINT) None in
    run (if success result && url_truthy (url result) then
           try_catch
             (trackDeepLinkResolved (url_text (url result)) Api
                (Some fingerprint))
             (fun _ => ret tt)
         else ret tt) then
    ret result.


(** * Specification vocabulary *)

(** [extends P w w']: [w'] has the module state of [w] and a trace that
    continues the trace of [w] with events that satisfy [P]. *)
Definition extends (P : event -> Prop) (w w' : world) : Prop :=
  storedLicenseKey w' = storedLicenseKey w /\
  isInitialized w' = isInitialized w /\
  exists delta, trace w' = trace w ++ delta /\ Forall P delta.

(** A computation that leaves the module state alone and emits only
    events that satisfy [P]. *)
Definition stable (P : event -> Prop) {A} (m : M A) : Prop :=
  forall E w, extends P w (snd (m E w)).

(** A computation that always returns (never throws). *)
Definition total {A} (m : M A) : Prop :=
  forall E w, exists a, fst (m E w) = Ok a.

Definition any_event : event -> Prop := fun _ => True.

(** The retry policy in the words of the specification.
    [retry_run once E n k w j r w']: starting with attempt number [k] in
    world [w], attempts are made one after the other; an attempt that
    succeeds, or fails with a license/validation message, or is attempt
    number [n], is the last one, and its result is returned; after any
    other attempt number [i] the client sleeps [1000 * i] ms and goes on
    with attempt [i + 1].  [j] is the number of the last attempt, [r] its
    result and [w'] the world it leaves. *)
Inductive retry_run (once : M DeepLinkResponse) (E : env) (n : nat)
  : nat -> world -> nat -> DeepLinkResponse -> world -> Prop :=
| retry_last k w r w' :
    once E w = (Ok r, w') ->
    success r = true \/ no_retry r = true \/ k = n ->
    retry_run once E n k w k r w'
| retry_again k w r w1 j r' w' :
    once E w = (Ok r, w1) ->
    success r = false ->
    no_retry r = false ->
    (k < n)%nat ->
    retry_run once E n (S k) (log (EvSleep (1000 * N.of_nat k)) w1) j r' w' ->
    retry_run once E n k w j r' w'.

(** The delays of a linear backoff between attempts [k .. j]. *)
Definition backoff (k j : nat) : list N :=
  List.map (fun i => 1000 * N.of_nat i) (seq k (j - k)).

(** A transport failure of one network call: the call is rejected
    (connection failure, or the abort timer fired) or the status is not
    2xx. *)
Definition transport_failure (o : net_outcome) : bool :=
  match o with
  | NetReject _ => true
  | NetResponse r => negb (resp_ok r)
  end.

(** A request to the Matching Service: the resolve call of
    [fetchDeepLinkUrl]. *)
Definition is_matching_call (ev : event) : bool :=
  match ev with
  | EvFetch req =>
      match req_body req with
      | BodyResolve _ _ _ => true
      | _ => false
      end
  | _ => false
  end.

Definition quiet (ev : event) : Prop := is_matching_call ev = false.

(** The Miss that [getDeepLink] builds. *)
Definition no_deep_link : DeepLinkResponse :=
  {| success := true; url := UrlNull;
     message := Some (lit "No deep link available"); error := None |}.

Definition not_initialized_response : DeepLinkResponse :=
  {| success := false; url := UrlAbsent; message := None;
     error := Some NOT_INITIALIZED |}.

(** The value of an optional method call [api?.()]. *)
Definition optional {A} (o : option (outcome A)) : outcome (option A) :=
  match o with
  | None => Ok None
  | Some (Ok a) => Ok (Some a)
  | Some (Throw e) => Throw e
  end.

(** The sources as [generateDeviceFingerprint] consults them on each
    platform. *)
Definition manufacturer_source (D : device_env) : outcome jsstring :=
  match platform_OS D with
  | Android => getManufacturer D
  | Ios => Ok (lit "Apple")
  end.

Definition rooted_source (D : device_env) : outcome bool :=
  match platform_OS D with
  | Android =>
      match optional (isDeviceRooted D) with
      | Ok r => Ok (default false r)
      | Throw e => Throw e
      end
  | Ios => Ok false
  end.

Definition carrier_source (D : device_env) : outcome (option jsstring) :=
  match platform_OS D with
  | Ios => match getCarrier D with Ok c => Ok (Some c) | Throw e => Throw e end
  | Android => Ok None
  end.

(** The ordered fallback chain of the specification: the first candidate
    that is a non-empty string, else the default. *)
Fixpoint first_truthy (candidates : list (option jsstring))
    (fallback : jsstring) : jsstring :=
  match candidates with
  | [] => fallback
  | c :: rest =>
      if truthy_opt c then default [] c else first_truthy rest fallback
  end.

(** The primary subtag of a locale: the text before the first hyphen. *)
Definition primary_subtag (locale : jsstring) : jsstring :=
  split_head hyphen locale.

(** The eight mandatory fields hold a value: the six strings are
    non-empty (width and height are numbers). *)
Definition mandatory_populated (fp : DeviceFingerprint) : bool :=
  truthy (platform_name (platform fp)) && truthy (osVersion fp) &&
  truthy (deviceId fp) && truthy (deviceModel fp) &&
  truthy (screenResolution fp) && truthy (appVersion fp).

(** The device APIs deliver non-empty strings when they return. *)
Definition sources_deliver (D : device_env) : Prop :=
  (forall s, getUniqueId D = Ok s -> truthy s = true) /\
  (forall s, getModel D = Ok s -> truthy s = true) /\
  (forall s, getSystemVersion D = Ok s -> truthy s = true) /\
  (forall s, platform_Version D = PVStr s -> truthy s = true).

(** [D] with its IP-address method replaced. *)
Definition with_ip_source (D : device_env)
    (ip : option (outcome (option jsstring))) : device_env :=
  {| dim_width := dim_width D;
     dim_height := dim_height D;
     platform_OS := platform_OS D;
     platform_Version := platform_Version D;
     getUniqueId := getUniqueId D;
     getModel := getModel D;
     getManufacturer := getManufacturer D;
     getSystemVersion := getSystemVersion D;
     getVersion := getVersion D;
     getBuildNumber := getBuildNumber D;
     isEmulator := isEmulator D;
     isDeviceRooted := isDeviceRooted D;
     getDeviceLocales := getDeviceLocales D;
     getDeviceLocale := getDeviceLocale D;
     intl_locale := intl_locale D;
     intl_timeZone := intl_timeZone D;
     netinfo_fetch := netinfo_fetch D;
     getCarrier := getCarrier D;
     getIpAddress := ip |}.

Definition with_device (E : env) (D : device_env) : env :=
  {| net := net E; now := now E; getInitialURL := getInitialURL E;
     device := D |}.

(** Two fingerprints that differ at most in [ipAddress]. *)
Definition same_but_ip (a b : DeviceFingerprint) : Prop :=
  platform a = platform b /\ osVersion a = osVersion b /\
  deviceId a = deviceId b /\ deviceModel a = deviceModel b /\
  manufacturer a = manufacturer b /\
  screenResolution a = screenResolution b /\
  screenWidth a = screenWidth b /\ screenHeight a = screenHeight b /\
  timezone a = timezone b /\ language a = language b /\
  locale a = locale b /\ appVersion a = appVersion b /\
  carrier a = carrier b /\ connectionType a = connectionType b /\
  isSimulator a = isSimulator b /\ isRooted a = isRooted b.

(** Two runs that both throw, or both return fingerprints that differ at
    most in [ipAddress]. *)
Definition agree (x y : outcome DeviceFingerprint * world) : Prop :=
  match fst x, fst y with
  | Ok a, Ok b => same_but_ip a b
  | Throw _, Throw _ => True
  | _, _ => False
  end.

(** A source other than the IP-address lookup throws when consulted. *)
Definition unguarded_source_throws (D : device_env) : Prop :=
  exists e,
    getUniqueId D = Throw e \/ getModel D = Throw e \/
    manufacturer_source D = Throw e \/ getSystemVersion D = Throw e \/
    getVersion D = Throw e \/ getBuildNumber D = Throw e \/
    isEmulator D = Throw e \/ rooted_source D = Throw e \/
    optional (getDeviceLocales D) = Throw e \/
    optional (getDeviceLocale D) = Throw e \/
    intl_timeZone D = Throw e \/ netinfo_fetch D = Throw e \/
    carrier_source D = Throw e.

(** Calls of the public interface, and a history of such calls. *)
Inductive api_call :=
| CallInit (licenseKey : jsstring)
| CallReset
| CallGetDeepLink (cb : option callback)
| CallTrack (ev : analytics_event).

(** Performs a call; the result tells whether it was an [init] that
    succeeded. *)
Definition perform (c : api_call) : M bool :=
  match c with
  | CallInit k => let* r := init k in ret (init_success r)
  | CallReset => run reset then ret false
  | CallGetDeepLink cb => run getDeepLink cb then ret false
  | CallTrack ev => run trackAnalyticsEvent ev then ret false
  end.

(** Replays a history from [w].  [live] tells whether an [init] has
    succeeded and no [reset] was called since. *)
Fixpoint replay (E : env) (cs : list api_call) (w : world) (live : bool)
  : world * bool :=
  match cs with
  | [] => (w, live)
  | c :: cs' =>
      let '(r, w') := perform c E w in
      let live' :=
        match c, r with
        | CallReset, _ => false
        | CallInit _, Ok true => true
        | _, _ => live
        end in
      replay E cs' w' live'
  end.

(** * Sample environments *)

(** An iPhone; the arguments are the sources that the examples vary.
    [runtime] is [Intl]: when it is missing, both of its reads throw. *)
Definition make_device (uid : outcome jsstring)
    (locales : option (outcome locales_value)) (runtime : outcome jsstring)
    (car : outcome jsstring) (ip : option (outcome (option jsstring)))
  : device_env :=
  {| dim_width := 390;
     dim_height := 844;
     platform_OS := Ios;
     platform_Version := PVStr (lit "17.4");
     getUniqueId := uid;
     getModel := Ok (lit "iPhone 15");
     getManufacturer := Ok (lit "Apple");
     getSystemVersion := Ok (lit "17.4");
     getVersion := Ok (lit "1.2.0");
     getBuildNumber := Ok (lit "42");
     isEmulator := Ok false;
     isDeviceRooted := None;
     getDeviceLocales := locales;
     getDeviceLocale := None;
     intl_locale := runtime;
     intl_timeZone :=
       match runtime with
       | Ok _ => Ok (lit "America/Toronto")
       | Throw e => Throw e
       end;
     netinfo_fetch := Ok {| ni_type := lit "wifi";
                            ni_details_ip := Some (lit "192.168.1.20") |};
     getCarrier := car;
     getIpAddress := ip |}.

Definition sample_device : device_env :=
  make_device (Ok (lit "A1B2-C3D4"))
    (Some (Ok (LocalesArray [lit "fr-CA"; lit "en-US"])))
    (Ok (lit "en-GB")) (Ok (lit "Rogers")) (Some (Ok (Some (lit "10.0.0.7")))).

Definition sample_fingerprint : DeviceFingerprint :=
  minimal_fingerprint sample_device.

Definition unsupported : jserror :=
  {| err_name := lit "Error"; err_message := lit "not supported" |}.

(** The carrier lookup throws; every other source works. *)
Definition carrier_fails_device : device_env :=
  make_device (Ok (lit "A1B2-C3D4"))
    (Some (Ok (LocalesArray [lit "fr-CA"; lit "en-US"])))
    (Ok (lit "en-GB")) (Throw unsupported) (Some (Ok (Some (lit "10.0.0.7")))).

(** The IP-address lookup throws; every other source works. *)
Definition ip_fails_device : device_env :=
  make_device (Ok (lit "A1B2-C3D4"))
    (Some (Ok (LocalesArray [lit "fr-CA"; lit "en-US"])))
    (Ok (lit "en-GB")) (Ok (lit "Rogers")) (Some (Throw unsupported)).

(** A JavaScript engine without [Intl], and no locale method in the
    device library. *)
Definition no_intl_device : device_env :=
  make_device (Ok (lit "A1B2-C3D4")) None
    (Throw {| err_name := lit "ReferenceError";
              err_message := lit "Property 'Intl' doesn't exist" |})
    (Ok (lit "Rogers")) (Some (Ok (Some (lit "10.0.0.7")))).

(** The platform reports a locale that starts with the separator. *)
Definition odd_locale_device : device_env :=
  make_device (Ok (lit "A1B2-C3D4")) (Some (Ok (LocalesArray [lit "-US"])))
    (Ok (lit "en-GB")) (Ok (lit "Rogers")) (Some (Ok (Some (lit "10.0.0.7")))).

Definition network_down : jserror :=
  {| err_name := lit "TypeError"; err_message := lit "Network request failed" |}.

Definition aborted : jserror :=
  {| err_name := lit "AbortError"; err_message := lit "Aborted" |}.

(** No launch URL, and every [fetch] is rejected. *)
Definition offline_env : env :=
  {| net := fun _ _ => NetReject network_down;
     now := fun _ => 1700000000000%Z;
     getInitialURL := Ok None;
     device := sample_device |}.

(** The network answers every call with [r]; the app was launched with
    [launch]. *)
Definition reply_env (r : response) (launch : option jsstring) : env :=
  {| net := fun _ _ => NetResponse r;
     now := fun _ => 1700000000000%Z;
     getInitialURL := Ok launch;
     device := sample_device |}.

Definition body_no_match : api_body :=
  {| b_success := true; b_valid := false; b_url := None;
     b_message := None; b_error := None |}.

Definition body_hit : api_body :=
  {| b_success := true; b_valid := false;
     b_url := Some (lit "myapp://promo/42"); b_message := None;
     b_error := None |}.

(** The network accepts every license key and finds no match. *)
Definition friendly_env : env :=
  reply_env
    {| resp_status := 200;
       resp_json :=
         JsonObject {| b_success := true; b_valid := true; b_url := None;
                       b_message := None; b_error := None |} |}
    None.

(** The service rejects the key with status 401. *)
Definition invalid_license_env : env :=
  reply_env
    {| resp_status := 401;
       resp_json :=
         JsonObject {| b_success := false; b_valid := false; b_url := None;
                       b_message := Some (lit "Invalid license key");
                       b_error := None |} |}
    None.

(** The first two calls time out, the third finds a match. *)
Definition flaky_env : env :=
  {| net := fun n _ =>
              match n with
              | 0%nat | 1%nat => NetReject aborted
              | _ => NetResponse {| resp_status := 200;
                                    resp_json := JsonObject body_hit |}
              end;
     now := fun _ => 1700000000000%Z;
     getInitialURL := Ok None;
     device := sample_device |}.

Definition ready_world : world :=
  {| storedLicenseKey := Some (lit "KEY-1"); isInitialized := true;
     trace := [] |}.

Definition throwing_callback : callback :=
  fun _ => Some {| err_name := lit "Error"; err_message := lit "boom" |}.

(** * More vocabulary *)

(** A response in one of the two shapes the callers rely on: a success
    without error whose URL is [null] or a non-empty string, or a failure
    without URL that carries a non-empty error. *)
Definition well_formed_response (r : DeepLinkResponse) : Prop :=
  (success r = true /\ error r = None /\
   (url r = UrlNull \/ exists u, url r = UrlStr u /\ truthy u = true)) \/
  (success r = false /\ url r = UrlAbsent /\ truthy_opt (error r) = true).

(** The URLs handed to the caller's callback, in order. *)
Definition callbacks (t : list event) : list jsstring :=
  flat_map (fun ev => match ev with EvCallback u => [u] | _ => [] end) t.

Definition no_callback (ev : event) : Prop :=
  match ev with EvCallback _ => False | _ => True end.

Definition no_fetch (ev : event) : Prop := is_fetch ev = false.

(** Not a request to the analytics endpoint. *)
Definition no_analytics (ev : event) : Prop :=
  match ev with
  | EvFetch req => req_url req <> ANALYTICS_ENDPOINT
  | _ => True
  end.

(** [stable] for one environment. *)
Definition stable_in (E : env) (P : event -> Prop) {A} (m : M A) : Prop :=
  forall w, extends P w (snd (m E w)).

(** The device queries that [generateDeviceFingerprint] may make on the
    platform of [D]. *)
Definition platform_query (D : device_env) (ev : event) : Prop :=
  exists src,
    ev = EvQuery src /\
    match platform_OS D with
    | Ios => src <> SrcManufacturer /\ src <> SrcRooted
    | Android => src <> SrcCarrier
    end.

(** The parsed reply that the pass-through endpoints return. *)
Definition parsed_reply (r : response) : option api_body :=
  match resp_json r with
  | JsonObject d => Some d
  | JsonNull => None
  | JsonInvalid _ => Some empty_body
  end.

(** The invariant of the module state: nothing stored and not
    initialized, or initialized with a stored key that passes the format
    check. *)
Definition state_ok (w : world) (live : bool) : Prop :=
  if live then
    isInitialized w = true /\
    exists k, storedLicenseKey w = Some k /\
              isValid (validateLicenseKeyFormat k) = true
  else
    isInitialized w = false /\ storedLicenseKey w = None.

(** The failure that the outer handler of [getDeepLink] builds. *)
Definition caught (e : jserror) : DeepLinkResponse :=
  {| success := false; url := UrlAbsent; message := None;
     error :=
       Some (if truthy (err_message e) then err_message e
             else lit "Unknown error occurred") |}.

(** How a path of [getDeepLink] that found the URL [u] ends: the
    callback, if any, is called with [u]; the result is [r] unless the
    callback throws. *)
Definition after_callback (cb : option callback) (u : jsstring)
    (r : DeepLinkResponse) (w : world) : outcome DeepLinkResponse * world :=
  match cb with
  | None => (Ok r, w)
  | Some f =>
      match f u with
      | None => (Ok r, log (EvCallback u) w)
      | Some e => (Ok (caught e), log (EvCallback u) w)
      end
  end.

(** The result is usable: a success with a non-empty URL. *)
Definition usable (r : DeepLinkResponse) : bool :=
  success r && url_truthy (url r).

(** * More sample environments *)

(** Every call times out. *)
Definition timeout_env : env :=
  {| net := fun _ _ => NetReject aborted;
     now := fun _ => 1700000000000%Z;
     getInitialURL := Ok None;
     device := sample_device |}.

(** The network answers every call with a match. *)
Definition hit_env : env :=
  reply_env {| resp_status := 200; resp_json := JsonObject body_hit |} None.

(** The validation service accepts the key; the Matching Service is
    down. *)
Definition validation_only_env : env :=
  {| net := fun _ req =>
              match req_body req with
              | BodyValidate _ =>
                  NetResponse
                    {| resp_status := 200;
                       resp_json :=
                         JsonObject {| b_success := true; b_valid := true;
                                       b_url := None; b_message := None;
                                       b_error := None |} |}
              | _ => NetReject network_down
              end;
     now := fun _ => 1700000000000%Z;
     getInitialURL := Ok None;
     device := sample_device |}.

Definition sample_match_payload : FingerprintMatchPayload :=
  {| fm_basic := {| fb_userAgent := lit "Mozilla/5.0";
                    fb_language := lit "fr";
                    fb_platform := lit "iPhone";
                    fb_screenResolution := lit "390x844";
                    fb_timezone := lit "America/Toronto";
                    fb_timezoneOffset := 300 |};
     fm_network := {| fn_ipAddress := lit "10.0.0.7";
                      fn_connectionType := lit "wifi" |};
     fm_device := {| fd_deviceModel := lit "iPhone 15";
                     fd_osVersion := lit "17.4";
                     fd_appVersion := lit "1.2.0 (42)" |};
     fm_userId := None |}.

Definition is_device_query (ev : event) : Prop :=
  exists src, ev = EvQuery src.

(** What a call of [getDeepLink] with callback [cb], started in [w], may do
    with the callback: it returns [r] in [w'] after the events [delta], in
    which the callback is called at most once, with a non-empty URL that is
    the URL of the result unless the callback throws; and a callback that is
    supplied but not called means that there is no usable URL. *)
Definition callback_discipline (cb : option callback) (w : world)
    (out : outcome DeepLinkResponse * world) : Prop :=
  exists r w' delta,
    out = (Ok r, w') /\
    trace w' = trace w ++ delta /\
    (callbacks delta = [] \/
     exists f u,
       cb = Some f /\ callbacks delta = [u] /\ truthy u = true /\
       match f u with
       | None => success r = true /\ url r = UrlStr u
       | Some e => r = caught e
       end) /\
    (callbacks delta = [] -> cb <> None -> usable r = false).

(** * Reasoning principles for computations *)

Lemma extends_refl P w : extends P w w.
Proof.
  repeat split; exists []; split; [now rewrite app_nil_r | constructor].
Qed.

Lemma extends_trans P w1 w2 w3 :
  extends P w1 w2 -> extends P w2 w3 -> extends P w1 w3.
Proof.
  intros (Hk & Hi & d & Ht & Hd) (Hk' & Hi' & d' & Ht' & Hd').
  repeat split; try congruence.
  exists (d ++ d'); split.
  - rewrite Ht', Ht. now rewrite <- app_assoc.
  - apply Forall_app; now split.
Qed.

Lemma extends_log (P : event -> Prop) ev w : P ev -> extends P w (log ev w).
Proof.
  intros H. repeat split. exists [ev]. split; [reflexivity | now repeat constructor].
Qed.

Section Stable.
Context (P : event -> Prop).

Lemma stable_ret {A} (a : A) : stable P (ret a).
Proof. intros E w. apply extends_refl. Qed.

Lemma stable_throw {A} e : stable P (@throw A e).
Proof. intros E w. apply extends_refl. Qed.

Lemma stable_bind {A B} (m : M A) (k : A -> M B) :
  stable P m -> (forall a, stable P (k a)) -> stable P (bind m k).
Proof.
  intros Hm Hk E w. unfold bind. specialize (Hm E w).
  destruct (m E w) as [[a | e] w1]; simpl in *; trivial.
  eapply extends_trans; [exact Hm | apply Hk].
Qed.

Lemma stable_try_catch {A} (m : M A) (h : jserror -> M A) :
  stable P m -> (forall e, stable P (h e)) -> stable P (try_catch m h).
Proof.
  intros Hm Hh E w. unfold try_catch. specialize (Hm E w).
  destruct (m E w) as [[a | e] w1]; simpl in *; trivial.
  eapply extends_trans; [exact Hm | apply Hh].
Qed.

Lemma stable_ask : stable P ask.
Proof. intros E w. apply extends_refl. Qed.

Lemma stable_get_world : stable P get_world.
Proof. intros E w. apply extends_refl. Qed.

Lemma stable_Date_now : stable P Date_now.
Proof. intros E w. apply extends_refl. Qed.

Lemma stable_lift_outcome {A} (o : outcome A) : stable P (lift_outcome o).
Proof. destruct o; [apply stable_ret | apply stable_throw]. Qed.

Lemma stable_emit ev : P ev -> stable P (emit ev).
Proof. intros H E w. now apply extends_log. Qed.

Lemma stable_sleep ms : P (EvSleep ms) -> stable P (sleep ms).
Proof. apply stable_emit. Qed.

Lemma stable_fetch req : P (EvFetch req) -> stable P (fetch req).
Proof.
  intros H E w. unfold fetch.
  destruct (net E _ req); simpl; now apply extends_log.
Qed.

Lemma stable_query {A} src (f : device_env -> outcome A) :
  P (EvQuery src) -> stable P (query src f).
Proof.
  intros H E w. unfold query.
  destruct (f (device E)); simpl; now apply extends_log.
Qed.

Lemma stable_query_opt {A} src (f : device_env -> option (outcome A)) :
  P (EvQuery src) -> stable P (query_opt src f).
Proof.
  intros H E w. unfold query_opt.
  destruct (f (device E)) as [[a | e] |]; simpl;
    solve [now apply extends_log | apply extends_refl].
Qed.

Lemma stable_props v : stable P (props v).
Proof. destruct v; [apply stable_ret | apply stable_throw]. Qed.

Lemma stable_json r : stable P (json r).
Proof.
  unfold json. destruct (resp_json r);
    solve [apply stable_ret | apply stable_throw].
Qed.

Lemma stable_json_catch_empty r : stable P (json_catch_empty r).
Proof.
  apply stable_try_catch; [apply stable_json | intros; apply stable_ret].
Qed.
End Stable.

Lemma total_ret {A} (a : A) : total (ret a).
Proof. intros E w. now exists a. Qed.

Lemma total_bind {A B} (m : M A) (k : A -> M B) :
  total m -> (forall a, total (k a)) -> total (bind m k).
Proof.
  intros Hm Hk E w. unfold bind. destruct (Hm E w) as [a Ha].
  destruct (m E w) as [[a' | e] w1]; simpl in Ha; [| discriminate].
  apply Hk.
Qed.

Lemma total_try_catch {A} (m : M A) (h : jserror -> M A) :
  (forall e, total (h e)) -> total (try_catch m h).
Proof.
  intros Hh E w. unfold try_catch.
  destruct (m E w) as [[a | e] w1]; [now exists a | apply Hh].
Qed.

(** Running a total computation. *)
Lemma total_run {A} (m : M A) E w :
  total m -> exists a w', m E w = (Ok a, w').
Proof.
  intros H. destruct (H E w) as [a Ha].
  destruct (m E w) as [r w']; simpl in Ha; subst. eauto.
Qed.

Lemma bind_run {A B} (m : M A) (k : A -> M B) E w a w1 :
  m E w = (Ok a, w1) -> bind m k E w = k a E w1.
Proof. intros H. unfold bind. now rewrite H. Qed.

Lemma try_catch_ok {A} (m : M A) h E w a w1 :
  m E w = (Ok a, w1) -> try_catch m h E w = (Ok a, w1).
Proof. intros H. unfold try_catch. now rewrite H. Qed.

Lemma try_catch_throw {A} (m : M A) h E w e w1 :
  m E w = (Throw e, w1) -> try_catch m h E w = h e E w1.
Proof. intros H. unfold try_catch. now rewrite H. Qed.

(** * Trace bookkeeping *)

Lemma sleeps_app t1 t2 : sleeps (t1 ++ t2) = sleeps t1 ++ sleeps t2.
Proof. unfold sleeps. apply flat_map_app. Qed.

Lemma fetches_app t1 t2 : fetches (t1 ++ t2) = fetches t1 ++ fetches t2.
Proof. unfold fetches. apply List.filter_app. Qed.

Lemma sleeps_log_fetch req w : sleeps (trace (log (EvFetch req) w)) = sleeps (trace w).
Proof. simpl. rewrite sleeps_app. simpl. now rewrite app_nil_r. Qed.

Lemma sleeps_log_sleep ms w :
  sleeps (trace (log (EvSleep ms) w)) = sleeps (trace w) ++ [ms].
Proof. simpl. now rewrite sleeps_app. Qed.

Lemma fetches_log_fetch req w :
  List.length (fetches (trace (log (EvFetch req) w)))
  = S (List.length (fetches (trace w))).
Proof. simpl. rewrite fetches_app, length_app. simpl. lia. Qed.

Lemma fetches_log_sleep ms w :
  fetches (trace (log (EvSleep ms) w)) = fetches (trace w).
Proof. simpl. rewrite fetches_app. simpl. now rewrite app_nil_r. Qed.

(** * Symbolic execution *)

(** Unfold the monad operations and case on the innermost scrutinee. *)
Ltac exec :=
  cbv beta iota zeta delta
    [bind try_catch ret throw props json json_catch_empty fetch Date_now
     emit sleep ask get_world lift_outcome query query_opt fst snd].

Ltac case_innermost x :=
  lazymatch x with
  | context [match ?y with _ => _ end] => case_innermost y
  | _ => destruct x eqn:?
  end.

Ltac case_step :=
  match goal with
  | |- context [match ?x with _ => _ end] => case_innermost x
  end.

(** * api.ts: one attempt *)

Lemma or_else_truthy o d : truthy d = true -> truthy (or_else o d) = true.
Proof.
  intros Hd. unfold or_else. destruct o as [s |]; trivial.
  destruct (truthy s) eqn:Hs; trivial.
Qed.

(** An ill-formed key is rejected before any network I/O. *)
Lemma fetchDeepLinkUrl_invalid key fp ep timeout E w :
  isValid (validateLicenseKeyFormat key) = false ->
  fetchDeepLinkUrl key fp ep timeout E w
  = (Ok (failure (lit "License key is required")), w).
Proof.
  intros H. unfold fetchDeepLinkUrl, try_catch.
  unfold validateLicenseKeyFormat in *.
  destruct (negb (truthy key) || negb (truthy (trim key))); [reflexivity | discriminate].
Qed.

(** With a well-formed key, an attempt is exactly one [fetch]; it never
    throws, whatever the network does. *)
Lemma fetchDeepLinkUrl_valid key fp ep timeout E w :
  isValid (validateLicenseKeyFormat key) = true ->
  exists r,
    fetchDeepLinkUrl key fp ep timeout E w
    = (Ok r,
       log (EvFetch
              (resolve_request (or_else ep BASE_API_URL) key
                 (BodyResolve key fp (now E (List.length (trace w))))
                 (default 10000 timeout))) w).
Proof.
  intros H. unfold fetchDeepLinkUrl. exec. rewrite H. cbv beta iota delta [negb].
  repeat (case_step; exec); eauto.
Qed.

Lemma fetchDeepLinkUrl_run key fp ep timeout E w :
  exists r w',
    fetchDeepLinkUrl key fp ep timeout E w = (Ok r, w') /\
    (w' = w \/ exists req, w' = log (EvFetch req) w).
Proof.
  destruct (isValid (validateLicenseKeyFormat key)) eqn:Hv.
  - destruct (fetchDeepLinkUrl_valid key fp ep timeout E w Hv) as [r Hr].
    eauto 6.
  - rewrite fetchDeepLinkUrl_invalid by trivial. eauto.
Qed.

(** * api.ts: the retry loop *)

Lemma retry_loop_exit fuel once n k last E w :
  (n < k)%nat ->
  retry_loop fuel once n k last E w
  = (Ok (default (failure (lit "Failed after retries")) last), w).
Proof.
  intros Hk. destruct fuel; simpl; trivial.
  destruct (Nat.leb_spec k n); [lia | reflexivity].
Qed.

Lemma backoff_nil k : backoff k k = [].
Proof. unfold backoff. now rewrite Nat.sub_diag. Qed.

Lemma backoff_cons k j :
  (k < j)%nat -> backoff k j = (1000 * N.of_nat k) :: backoff (S k) j.
Proof.
  intros H. unfold backoff.
  replace (j - k)%nat with (S (j - S k)) by lia. reflexivity.
Qed.

Section RetryLoop.
Context (once : M DeepLinkResponse) (E : env) (n : nat).

(** What the loop needs from one attempt: it returns, it does not
    sleep, and it issues at most one [fetch]. *)
Hypothesis once_run : forall w, exists r w',
  once E w = (Ok r, w') /\ (w' = w \/ exists req, w' = log (EvFetch req) w).

Lemma retry_loop_run fuel : forall k last w,
  (1 <= k <= n)%nat -> (n < k + fuel)%nat ->
  exists j r w',
    retry_loop fuel once n k last E w = (Ok r, w') /\
    retry_run once E n k w j r w' /\
    (k <= j <= n)%nat /\
    sleeps (trace w') = sleeps (trace w) ++ backoff k j /\
    (List.length (fetches (trace w'))
     <= List.length (fetches (trace w)) + (S j - k))%nat.
Proof.
  induction fuel as [| fuel IH]; intros k last w Hk Hfuel; [lia |].
  destruct (once_run w) as (r & w1 & Hrun & Hw1).
  assert (Hs1 : sleeps (trace w1) = sleeps (trace w)).
  { destruct Hw1 as [-> | [req ->]]; [trivial | apply sleeps_log_fetch]. }
  assert (Hf1 : (List.length (fetches (trace w1))
                 <= S (List.length (fetches (trace w))))%nat).
  { destruct Hw1 as [-> | [req ->]]; [lia | rewrite fetches_log_fetch; lia]. }
  cbn [retry_loop].
  destruct (Nat.leb_spec k n) as [_ | ?]; [| lia].
  unfold bind at 1. rewrite Hrun.
  destruct (success r) eqn:Hsucc.
  { exists k, r, w1. repeat split; try lia.
    - apply retry_last; auto.
    - now rewrite backoff_nil, app_nil_r. }
  destruct (no_retry r) eqn:Hstop.
  { exists k, r, w1. repeat split; try lia.
    - apply retry_last; auto.
    - now rewrite backoff_nil, app_nil_r. }
  destruct (Nat.ltb_spec k n) as [Hlt | Hge].
  - unfold bind at 1, sleep, emit.
    destruct (IH (S k) (Some r) (log (EvSleep (1000 * N.of_nat k)) w1))
      as (j & r' & w' & Hloop & Hrel & Hj & Hsl & Hfe); [lia | lia |].
    exists j, r', w'. rewrite Hloop. repeat split; try lia.
    + eapply retry_again; eauto.
    + rewrite Hsl, sleeps_log_sleep, Hs1, <- app_assoc.
      now rewrite (backoff_cons k j) by lia.
    + rewrite fetches_log_sleep in Hfe. lia.
  - unfold bind at 1, ret.
    rewrite retry_loop_exit by lia. cbn [default].
    exists k, r, w1. repeat split; try lia.
    + apply retry_last; auto. right; right; lia.
    + now rewrite backoff_nil, app_nil_r.
Qed.
End RetryLoop.

(** The run ends on a success, a license/validation failure, or the last
    permitted attempt; every earlier attempt was a retryable failure. *)
Lemma retry_run_last once E n k w j r w' :
  retry_run once E n k w j r w' ->
  success r = true \/ no_retry r = true \/ j = n.
Proof. induction 1; auto. Qed.

(** ** C2 *)

(** C2.  For every license key, fingerprint and [n >= 1],
    [fetchDeepLinkUrlWithRetry] returns (it never throws) after a run of
    attempts [1 .. j] with [j <= n] that follows the retry policy
    ([retry_run]): it returns the result of the first attempt that succeeds,
    it stops at once on a failure whose message contains "license" or
    "Invalid", otherwise it sleeps [1000 * i] ms after attempt [i < n] and
    tries again, and after attempt [n] it returns that last failure.  The
    sleeps it adds to the trace are exactly 1000, 2000, ..., [1000 * (j-1)],
    and it issues at most [j] network calls. *)
Theorem fetchDeepLinkUrlWithRetry_policy
    (licenseKey : jsstring) (fp : DeviceFingerprint) (n : nat)
    (apiEndpoint : option jsstring) (timeout : option N) (E : env) (w : world) :
  (1 <= n)%nat ->
  exists j r w',
    fetchDeepLinkUrlWithRetry licenseKey fp (Some n) apiEndpoint timeout E w
    = (Ok r, w') /\
    retry_run (fetchDeepLinkUrl licenseKey fp apiEndpoint timeout) E n 1 w j r w' /\
    (1 <= j <= n)%nat /\
    (success r = true \/ no_retry r = true \/ j = n) /\
    sleeps (trace w') = sleeps (trace w) ++ backoff 1 j /\
    (List.length (fetches (trace w')) <= List.length (fetches (trace w)) + j)%nat.
Proof.
  intros Hn. unfold fetchDeepLinkUrlWithRetry. cbn [default].
  destruct (retry_loop_run (fetchDeepLinkUrl licenseKey fp apiEndpoint timeout)
              E n (fun w0 => fetchDeepLinkUrl_run _ _ _ _ E w0)
              (S n) 1%nat None w)
    as (j & r & w' & Hloop & Hrel & Hj & Hsl & Hfe); [lia | lia |].
  exists j, r, w'. repeat split; try lia; trivial.
  eapply retry_run_last; eauto.
Qed.

Lemma fetchDeepLinkUrlWithRetry_policy_witness :
  exists j r w',
    fetchDeepLinkUrlWithRetry (lit "KEY-1") sample_fingerprint (Some 3%nat)
      None None offline_env ready_world = (Ok r, w') /\
    retry_run (fetchDeepLinkUrl (lit "KEY-1") sample_fingerprint None None)
      offline_env 3 1 ready_world j r w' /\
    (1 <= j <= 3)%nat /\
    (success r = true \/ no_retry r = true \/ j = 3%nat) /\
    sleeps (trace w') = sleeps (trace ready_world) ++ backoff 1 j /\
    (List.length (fetches (trace w'))
     <= List.length (fetches (trace ready_world)) + j)%nat.
Proof.
  apply (fetchDeepLinkUrlWithRetry_policy (lit "KEY-1") sample_fingerprint 3
           None None offline_env ready_world).
  repeat constructor.
Defined.

(** Runs of the retry client. *)

Example retry_third_attempt_hits :
  let out :=
    fetchDeepLinkUrlWithRetry (lit "KEY-1") sample_fingerprint (Some 3%nat)
      None None flaky_env ready_world in
  fst out
  = Ok {| success := true; url := UrlStr (lit "myapp://promo/42");
          message := None; error := None |} /\
  sleeps (trace (snd out)) = [1000; 2000] /\
  List.length (fetches (trace (snd out))) = 3%nat.
Proof. vm_compute. repeat split. Qed.

Example retry_stops_on_invalid_license :
  let out :=
    fetchDeepLinkUrlWithRetry (lit "KEY-1") sample_fingerprint (Some 3%nat)
      None None invalid_license_env ready_world in
  fst out = Ok (failure (lit "Invalid license key")) /\
  sleeps (trace (snd out)) = [] /\
  List.length (fetches (trace (snd out))) = 1%nat.
Proof. vm_compute. repeat split. Qed.

(** The message of the local format check has a capital L and no
    "Invalid": it does not stop the loop, which runs its three attempts
    without any network call. *)
Example retry_on_format_error :
  let out :=
    fetchDeepLinkUrlWithRetry (lit "   ") sample_fingerprint (Some 3%nat)
      None None offline_env ready_world in
  fst out = Ok (failure (lit "License key is required")) /\
  no_retry (failure (lit "License key is required")) = false /\
  sleeps (trace (snd out)) = [1000; 2000] /\
  fetches (trace (snd out)) = [].
Proof. vm_compute. repeat split. Qed.

(** ** C4 *)

Lemma resp_ok_2xx status j :
  200 <= status <= 299 ->
  resp_ok {| resp_status := status; resp_json := j |} = true.
Proof.
  intros [H1 H2]. unfold resp_ok. cbn [resp_status].
  apply andb_true_intro; split; now apply N.leb_le.
Qed.

(** C4.  When the Matching Service answers the request of
    [fetchDeepLinkUrl] with a 2xx status and a JSON body [d]:
    if [d.success] holds and [d.url] is absent (or empty) the result is the
    Miss [{success: true, url: null}] and carries no error; if [d.success]
    holds and [d.url] is a URL [u] the result is the Hit
    [{success: true, url: u}]; if [d.success] does not hold the result is a
    failure whose error is the server message, or the generic
    "No URL returned from API" when there is none. *)
Theorem fetchDeepLinkUrl_2xx
    (licenseKey : jsstring) (fp : DeviceFingerprint)
    (apiEndpoint : option jsstring) (timeout : option N)
    (E : env) (w : world) (status : N) (d : api_body) :
  let req :=
    resolve_request (or_else apiEndpoint BASE_API_URL) licenseKey
      (BodyResolve licenseKey fp (now E (List.length (trace w))))
      (default 10000 timeout) in
  isValid (validateLicenseKeyFormat licenseKey) = true ->
  net E (List.length (fetches (trace w))) req
  = NetResponse {| resp_status := status; resp_json := JsonObject d |} ->
  200 <= status <= 299 ->
  exists r,
    fetchDeepLinkUrl licenseKey fp apiEndpoint timeout E w
    = (Ok r, log (EvFetch req) w) /\
    (b_success d = true -> truthy_opt (b_url d) = false ->
     success r = true /\ url r = UrlNull /\ error r = None) /\
    (forall u, b_success d = true -> b_url d = Some u -> truthy u = true ->
     r = {| success := true; url := UrlStr u; message := b_message d;
            error := None |}) /\
    (b_success d = false ->
     success r = false /\
     error r = Some (or_else (b_message d) (lit "No URL returned from API")) /\
     truthy_opt (error r) = true).
Proof.
  intros req Hvalid Hnet Hstatus. subst req.
  unfold fetchDeepLinkUrl. exec. rewrite Hvalid. cbv beta iota delta [negb].
  rewrite Hnet. rewrite resp_ok_2xx by trivial. cbn [resp_json negb].
  destruct (b_success d) eqn:Hs.
  - destruct (truthy_opt (b_url d)) eqn:Hu.
    + eexists; split; [reflexivity |]. repeat split; try discriminate.
      intros u _ Hurl _. now rewrite Hurl.
    + eexists; split; [reflexivity |]. repeat split; try discriminate.
      intros u _ Hurl Ht. rewrite Hurl in Hu. cbn in Hu. congruence.
  - eexists; split; [reflexivity |]. repeat split; try discriminate.
    cbn [error failure truthy_opt]. now apply or_else_truthy.
Qed.

Lemma fetchDeepLinkUrl_2xx_witness :
  exists r,
    fetchDeepLinkUrl (lit "KEY-1") sample_fingerprint None None
      (reply_env {| resp_status := 200; resp_json := JsonObject body_no_match |}
         None)
      ready_world
    = (Ok r,
       log (EvFetch
              (resolve_request BASE_API_URL (lit "KEY-1")
                 (BodyResolve (lit "KEY-1") sample_fingerprint 1700000000000%Z)
                 10000))
         ready_world) /\
    success r = true /\ url r = UrlNull /\ error r = None.
Proof.
  destruct (fetchDeepLinkUrl_2xx (lit "KEY-1") sample_fingerprint None None
              (reply_env
                 {| resp_status := 200; resp_json := JsonObject body_no_match |}
                 None)
              ready_world 200 body_no_match)
    as (r & Hrun & Hmiss & _).
  - reflexivity.
  - reflexivity.
  - split; discriminate.
  - exists r. split; [exact Hrun |]. apply Hmiss; reflexivity.
Defined.

(** * fingerprint.ts *)

Lemma bind_ok_inv {A B} (m : M A) (k : A -> M B) E w b w' :
  bind m k E w = (Ok b, w') ->
  exists a w1, m E w = (Ok a, w1) /\ k a E w1 = (Ok b, w').
Proof.
  unfold bind. destruct (m E w) as [[a | e] w1]; [eauto | discriminate].
Qed.

Lemma ret_ok_inv {A} (a b : A) E w w' :
  ret a E w = (Ok b, w') -> a = b /\ w = w'.
Proof. unfold ret. intros H. now inversion H. Qed.

Lemma ask_ok_inv E w E0 w0 : ask E w = (Ok E0, w0) -> E = E0 /\ w = w0.
Proof. unfold ask. intros H. now inversion H. Qed.

Lemma query_ok_inv {A} src (f : device_env -> outcome A) E w a w' :
  query src f E w = (Ok a, w') -> f (device E) = Ok a.
Proof.
  unfold query. destruct (f (device E)); intros H; now inversion H.
Qed.

Lemma query_opt_ok_inv {A} src (f : device_env -> option (outcome A)) E w a w' :
  query_opt src f E w = (Ok a, w') -> optional (f (device E)) = Ok a.
Proof.
  unfold query_opt, optional.
  destruct (f (device E)) as [[x | e] |]; intros H; now inversion H.
Qed.

(** The three-way choice of the locale, inverted. *)
Lemma chosen_locale_inv (primary legacy : option jsstring) E w chosen w' :
  (if truthy_opt primary then ret primary
   else if truthy_opt legacy then ret legacy
   else let* l := query SrcIntlLocale intl_locale in ret (Some l)) E w
  = (Ok chosen, w') ->
  exists runtime,
    (truthy_opt primary || truthy_opt legacy = false ->
     intl_locale (device E) = Ok (default [] runtime)) /\
    or_else chosen (lit "en")
    = first_truthy [primary; legacy; runtime] (lit "en").
Proof.
  intros H. cbn [first_truthy].
  destruct (truthy_opt primary) eqn:Hp.
  { apply ret_ok_inv in H as [<- _]. exists None. split; [discriminate |].
    unfold or_else. destruct primary as [s |]; [| discriminate].
    cbn in Hp. now rewrite Hp. }
  destruct (truthy_opt legacy) eqn:Hl.
  { apply ret_ok_inv in H as [<- _]. exists None. split; [discriminate |].
    unfold or_else. destruct legacy as [s |]; [| discriminate].
    cbn in Hl. now rewrite Hl. }
  apply bind_ok_inv in H as (l & w1 & Hq & Hr).
  apply query_ok_inv in Hq. apply ret_ok_inv in Hr as [<- _].
  exists (Some l). split; [intros _; exact Hq |].
  unfold or_else. cbn. now destruct l.
Qed.

(** What a run of the [try] block that returns tells about the sources
    and about the fingerprint. *)
Lemma collect_fingerprint_ok E w fp w' :
  collect_fingerprint E w = (Ok fp, w') ->
  let D := device E in
  getUniqueId D = Ok (deviceId fp) /\
  getModel D = Ok (deviceModel fp) /\
  getSystemVersion D = Ok (osVersion fp) /\
  (exists version build,
     getVersion D = Ok version /\ getBuildNumber D = Ok build /\
     appVersion fp = version ++ lit " (" ++ build ++ lit ")") /\
  platform fp = platform_OS D /\
  screenResolution fp = of_Z (dim_width D) ++ lit "x" ++ of_Z (dim_height D) /\
  screenWidth fp = dim_width D /\ screenHeight fp = dim_height D /\
  (exists m, manufacturer_source D = Ok m /\ manufacturer fp = Some m) /\
  (exists b, isEmulator D = Ok b /\ isSimulator fp = Some b) /\
  (exists b, rooted_source D = Ok b /\ isRooted fp = Some b) /\
  (exists locales legacy runtime,
     optional (getDeviceLocales D) = Ok locales /\
     optional (getDeviceLocale D) = Ok legacy /\
     (truthy_opt (primary_locale locales) || truthy_opt (mjoin legacy) = false ->
      intl_locale D = Ok (default [] runtime)) /\
     locale fp
     = Some (first_truthy [primary_locale locales; mjoin legacy; runtime]
               (lit "en")) /\
     language fp
     = Some (language_of
               (first_truthy [primary_locale locales; mjoin legacy; runtime]
                  (lit "en")))) /\
  (exists tz, intl_timeZone D = Ok tz /\ timezone fp = Some tz) /\
  (exists ni, netinfo_fetch D = Ok ni /\
     connectionType fp = if truthy (ni_type ni) then Some (ni_type ni) else None) /\
  carrier_source D = Ok (carrier fp) /\
  (forall e, getIpAddress D = Some (Throw e) -> ipAddress fp = None).
Proof.
  unfold collect_fingerprint. intros H.
  apply bind_ok_inv in H as (E0 & w0 & HE & H).
  apply ask_ok_inv in HE as [<- <-]. cbv zeta in H.
  apply bind_ok_inv in H as (id & w1 & Hid & H). apply query_ok_inv in Hid.
  apply bind_ok_inv in H as (model & w2 & Hmodel & H). apply query_ok_inv in Hmodel.
  apply bind_ok_inv in H as (manu & w3 & Hmanu & H).
  apply bind_ok_inv in H as (osv & w4 & Hosv & H). apply query_ok_inv in Hosv.
  apply bind_ok_inv in H as (ver & w5 & Hver & H). apply query_ok_inv in Hver.
  apply bind_ok_inv in H as (build & w6 & Hbuild & H). apply query_ok_inv in Hbuild.
  apply bind_ok_inv in H as (emu & w7 & Hemu & H). apply query_ok_inv in Hemu.
  apply bind_ok_inv in H as (rooted & w8 & Hrooted & H).
  apply bind_ok_inv in H as (locales & w9 & Hlocales & H).
  apply query_opt_ok_inv in Hlocales.
  apply bind_ok_inv in H as (legacy & w10 & Hlegacy & H).
  apply query_opt_ok_inv in Hlegacy.
  apply bind_ok_inv in H as (chosen & w11 & Hchosen & H).
  apply chosen_locale_inv in Hchosen as (runtime & Hruntime & Hchain).
  apply bind_ok_inv in H as (tz & w12 & Htz & H). apply query_ok_inv in Htz.
  apply bind_ok_inv in H as (ni & w13 & Hni & H). apply query_ok_inv in Hni.
  apply bind_ok_inv in H as (car & w14 & Hcar & H).
  apply bind_ok_inv in H as (ip & w15 & Hip & H).
  apply ret_ok_inv in H as [<- _]. cbn [deviceId deviceModel osVersion
    appVersion platform screenResolution screenWidth screenHeight manufacturer
    isSimulator isRooted locale language timezone connectionType carrier].
  rewrite Hchain.
  assert (Hm : manufacturer_source (device E) = Ok manu).
  { unfold manufacturer_source. destruct (platform_OS (device E)).
    - now apply ret_ok_inv in Hmanu as [<- _].
    - now apply query_ok_inv in Hmanu. }
  assert (Hr : rooted_source (device E) = Ok rooted).
  { unfold rooted_source. destruct (platform_OS (device E)).
    - now apply ret_ok_inv in Hrooted as [<- _].
    - apply bind_ok_inv in Hrooted as (r & wr & Hq & Hret).
      apply query_opt_ok_inv in Hq. rewrite Hq.
      now apply ret_ok_inv in Hret as [<- _]. }
  assert (Hc : carrier_source (device E) = Ok car).
  { unfold carrier_source. destruct (platform_OS (device E)).
    - apply bind_ok_inv in Hcar as (c & wc & Hq & Hret).
      apply query_ok_inv in Hq. rewrite Hq.
      now apply ret_ok_inv in Hret as [<- _].
    - now apply ret_ok_inv in Hcar as [<- _]. }
  assert (Hi : forall e, getIpAddress (device E) = Some (Throw e) -> ip = None).
  { intros e He. revert Hip. unfold try_catch, bind, query_opt.
    rewrite He. intros Hip. now apply ret_ok_inv in Hip as [<- _]. }
  repeat match goal with |- _ /\ _ => split end; eauto 10.
Qed.

Lemma truthy_app_r (a b : jsstring) : truthy b = true -> truthy (a ++ b) = true.
Proof. destruct a; trivial. Qed.

Lemma truthy_of_Z z : truthy (of_Z z) = true.
Proof.
  unfold of_Z. destruct (Z.to_int z) as [d | d]; [destruct d |]; reflexivity.
Qed.

Lemma screen_resolution_truthy a b :
  truthy (of_Z a ++ lit "x" ++ of_Z b) = true.
Proof. apply truthy_app_r. reflexivity. Qed.

(** [generateDeviceFingerprint] returns what the [try] block returns, and
    the minimal fingerprint when the block throws. *)
Lemma generateDeviceFingerprint_cases E w :
  (exists fp w', collect_fingerprint E w = (Ok fp, w') /\
                 generateDeviceFingerprint E w = (Ok fp, w')) \/
  (exists e w', collect_fingerprint E w = (Throw e, w') /\
                generateDeviceFingerprint E w
                = (Ok (minimal_fingerprint (device E)), w')).
Proof.
  unfold generateDeviceFingerprint, try_catch.
  destruct (collect_fingerprint E w) as [[fp | e] w']; [left | right]; eauto.
Qed.

Lemma generateDeviceFingerprint_total : total generateDeviceFingerprint.
Proof.
  intros E w.
  destruct (generateDeviceFingerprint_cases E w)
    as [(fp & w' & _ & ->) | (e & w' & _ & ->)]; eauto.
Qed.

Lemma minimal_fingerprint_populated D :
  (forall s, platform_Version D = PVStr s -> truthy s = true) ->
  mandatory_populated (minimal_fingerprint D) = true.
Proof.
  intros HV. unfold mandatory_populated, minimal_fingerprint.
  cbn [platform osVersion deviceId deviceModel screenResolution appVersion].
  rewrite screen_resolution_truthy.
  assert (Hos : truthy match platform_Version D with
                       | PVNum z => of_Z z
                       | PVStr s => s
                       end = true).
  { destruct (platform_Version D) as [z | s]; [apply truthy_of_Z | now apply HV]. }
  rewrite Hos. now destruct (platform_OS D).
Qed.

(** ** C7 *)

(** C7.  [generateDeviceFingerprint] never throws: whatever sources throw
    or are missing, it returns a fingerprint.  Its eight mandatory fields
    are populated (the six strings non-empty), given that the device APIs
    that do return deliver non-empty strings; and when the collection fails
    the result is the minimal fingerprint, with the fixed fallbacks
    "unknown" for device id, model and app version. *)
Theorem generateDeviceFingerprint_never_throws (E : env) (w : world) :
  exists fp w',
    generateDeviceFingerprint E w = (Ok fp, w') /\
    (sources_deliver (device E) -> mandatory_populated fp = true) /\
    ((exists e w1, collect_fingerprint E w = (Throw e, w1)) ->
     fp = minimal_fingerprint (device E) /\
     deviceId fp = lit "unknown" /\ deviceModel fp = lit "unknown" /\
     appVersion fp = lit "unknown").
Proof.
  destruct (generateDeviceFingerprint_cases E w)
    as [(fp & w' & Hc & Hg) | (e & w' & Hc & Hg)].
  - exists fp, w'. split; [exact Hg |]. split.
    + intros (Hid & Hmodel & Hos & Hver).
      apply collect_fingerprint_ok in Hc.
      destruct Hc as (Ei & Em & Eo & (v & b & _ & _ & Ea) & Ep & Es & _).
      unfold mandatory_populated.
      rewrite (Hid _ Ei), (Hmodel _ Em), (Hos _ Eo), Es, Ea, Ep.
      rewrite screen_resolution_truthy.
      rewrite (truthy_app_r v (lit " (" ++ b ++ lit ")")) by reflexivity.
      now destruct (platform_OS (device E)).
    + intros (e & w1 & He). congruence.
  - exists (minimal_fingerprint (device E)), w'. split; [exact Hg |]. split.
    + intros (_ & _ & _ & Hver). now apply minimal_fingerprint_populated.
    + intros _. repeat split.
Qed.

Lemma generateDeviceFingerprint_never_throws_witness :
  exists fp w',
    generateDeviceFingerprint
      (with_device offline_env carrier_fails_device) initial_world
    = (Ok fp, w') /\
    mandatory_populated fp = true /\
    fp = minimal_fingerprint carrier_fails_device.
Proof.
  destruct (generateDeviceFingerprint_never_throws
              (with_device offline_env carrier_fails_device) initial_world)
    as (fp & w' & Hrun & Hpop & Hmin).
  exists fp, w'. split; [exact Hrun |]. split.
  - apply Hpop. repeat split; intros s H; inversion H; reflexivity.
  - apply Hmin. eexists; eexists. vm_compute. reflexivity.
Defined.

(** ** C6 *)

Lemma bind_ask {A} (k : env -> M A) E w : bind ask k E w = k E E w.
Proof. reflexivity. Qed.

Lemma bind_agree {A} (m m' : M A) (k k' : A -> M DeviceFingerprint) E E' w :
  m E w = m' E' w ->
  (forall a w1, agree (k a E w1) (k' a E' w1)) ->
  agree (bind m k E w) (bind m' k' E' w).
Proof.
  intros Hm Hk. unfold bind. rewrite Hm.
  destruct (m' E' w) as [[a | e] w1]; [apply Hk | exact I].
Qed.

(** The guarded IP-address lookup always returns. *)
Lemma ip_lookup_total (ni : netinfo_state) :
  total
    (try_catch
       (let* got := query_opt SrcIpAddress getIpAddress in
        let ip := mjoin got in
        if negb (truthy_opt ip) && bool_decide (is_Some (ni_details_ip ni))
        then ret (ni_details_ip ni)
        else ret ip)
       (fun _ => ret None)).
Proof. apply total_try_catch. intros e. apply total_ret. Qed.

(** Replacing the IP-address method changes no other field and does not
    make the collection fail. *)
Lemma collect_fingerprint_ip_independent E w ip :
  agree (collect_fingerprint E w)
        (collect_fingerprint (with_device E (with_ip_source (device E) ip)) w).
Proof.
  unfold collect_fingerprint. rewrite !bind_ask. cbv zeta.
  cbn [device with_device with_ip_source dim_width dim_height platform_OS].
  destruct (platform_OS (device E));
  do 14 (apply bind_agree;
         [repeat match goal with
                 | |- context [if ?b then _ else _] => destruct b
                 end; reflexivity
         | intros ? ?]);
  match goal with
  | |- agree (bind ?m _ _ ?w0) (bind ?m' _ ?E' _) =>
      destruct (total_run m E w0 (ip_lookup_total _)) as (i1 & v1 & H1);
      destruct (total_run m' E' w0 (ip_lookup_total _)) as (i2 & v2 & H2)
  end;
  unfold agree; erewrite !bind_run by eassumption;
  cbn [fst ret]; repeat split.
Qed.

Lemma independent_sources_counterexample :
  getCarrier carrier_fails_device = Throw unsupported /\
  getUniqueId carrier_fails_device = Ok (lit "A1B2-C3D4") /\
  getDeviceLocales carrier_fails_device
  = Some (Ok (LocalesArray [lit "fr-CA"; lit "en-US"])) /\
  getIpAddress carrier_fails_device = Some (Ok (Some (lit "10.0.0.7"))) /\
  exists fp w',
    generateDeviceFingerprint
      (with_device offline_env carrier_fails_device) initial_world
    = (Ok fp, w') /\
    deviceId fp = lit "unknown" /\ locale fp = None /\ ipAddress fp = None.
Proof.
  repeat split. eexists; eexists. split; [vm_compute; reflexivity |].
  repeat split.
Qed.

(** C6 (amended).  Only the IP-address lookup is guarded on its own:
    replacing it by a method that throws, or by a missing one, changes no
    field of the returned fingerprint but [ipAddress], and when it throws
    in a collection that completes, [ipAddress] is left out.  A throw from
    any other source that is consulted abandons the collection, and the
    minimal fingerprint is returned in place of the values already read. *)
Theorem fingerprint_source_guards (E : env) (w : world) :
  (forall ip,
     exists fp fp' w1 w1',
       generateDeviceFingerprint E w = (Ok fp, w1) /\
       generateDeviceFingerprint
         (with_device E (with_ip_source (device E) ip)) w = (Ok fp', w1') /\
       same_but_ip fp fp') /\
  (forall e fp w',
     getIpAddress (device E) = Some (Throw e) ->
     collect_fingerprint E w = (Ok fp, w') ->
     generateDeviceFingerprint E w = (Ok fp, w') /\ ipAddress fp = None) /\
  (unguarded_source_throws (device E) ->
   exists w',
     generateDeviceFingerprint E w = (Ok (minimal_fingerprint (device E)), w')).
Proof.
  split; [| split].
  - intros ip.
    pose proof (collect_fingerprint_ip_independent E w ip) as Hag.
    unfold agree in Hag.
    destruct (generateDeviceFingerprint_cases E w)
      as [(fp & w1 & Hc & Hg) | (e & w1 & Hc & Hg)];
    destruct (generateDeviceFingerprint_cases
                (with_device E (with_ip_source (device E) ip)) w)
      as [(fp' & w1' & Hc' & Hg') | (e' & w1' & Hc' & Hg')];
    rewrite Hc, Hc' in Hag; cbn [fst] in Hag; try contradiction.
    + exists fp, fp', w1, w1'. auto.
    + eexists; eexists; exists w1, w1'.
      split; [exact Hg |]. split; [exact Hg' |]. repeat split.
  - intros e fp w' Hip Hc. split.
    + unfold generateDeviceFingerprint. now rewrite (try_catch_ok _ _ _ _ _ _ Hc).
    + apply collect_fingerprint_ok in Hc.
      repeat match type of Hc with _ /\ _ => destruct Hc as [_ Hc] end.
      eauto.
  - intros (e & Hsrc).
    destruct (generateDeviceFingerprint_cases E w)
      as [(fp & w1 & Hc & Hg) | (e' & w1 & Hc & Hg)]; [| eauto].
    exfalso. apply collect_fingerprint_ok in Hc.
    destruct Hc as (Ei & Em & Eo & (v & b & Ev & Eb & _) & _ & _ & _ & _
                    & (m & Ema & _) & (bs & Ee & _) & (br & Er & _)
                    & (ls & lg & rt & El & Elg & _) & (tz & Etz & _)
                    & (ni & Eni & _) & Ec & _).
    repeat (destruct Hsrc as [Hsrc | Hsrc]; [congruence |]). congruence.
Qed.

(** A failing IP-address lookup costs only the [ipAddress] field. *)
Example ip_failure_keeps_other_values :
  let out :=
    generateDeviceFingerprint (with_device offline_env ip_fails_device)
      initial_world in
  exists fp,
    fst out = Ok fp /\
    deviceId fp = lit "A1B2-C3D4" /\ locale fp = Some (lit "fr-CA") /\
    language fp = Some (lit "fr") /\ carrier fp = Some (lit "Rogers") /\
    appVersion fp = lit "1.2.0 (42)" /\ ipAddress fp = None.
Proof. eexists. vm_compute. repeat split. Qed.

(** ** C9 *)

(** The language is the primary subtag, or "en" when that is empty. *)
Lemma language_of_spec l :
  language_of l
  = if truthy (primary_subtag l) then primary_subtag l else lit "en".
Proof.
  unfold language_of, primary_subtag.
  replace (or_else (Some l) []) with l by (now destruct l).
  reflexivity.
Qed.

Lemma locale_chain_counterexample :
  (* no locale method, no Intl: the chain would end on "en" *)
  (getDeviceLocales no_intl_device = None /\
   getDeviceLocale no_intl_device = None /\
   (exists e, intl_locale no_intl_device = Throw e) /\
   exists fp w',
     generateDeviceFingerprint (with_device offline_env no_intl_device)
       initial_world = (Ok fp, w') /\
     locale fp = None /\ language fp = None) /\
  (* a locale whose primary subtag is empty *)
  (exists fp w',
     generateDeviceFingerprint (with_device offline_env odd_locale_device)
       initial_world = (Ok fp, w') /\
     locale fp = Some (lit "-US") /\
     primary_subtag (lit "-US") = [] /\
     language fp = Some (lit "en")).
Proof.
  split.
  - repeat split; [eexists; reflexivity |].
    eexists; eexists. split; [vm_compute; reflexivity |]. split; reflexivity.
  - eexists; eexists. split; [vm_compute; reflexivity |].
    repeat split.
Qed.

(** C9 (amended).  In a collection that completes (no consulted source
    throws), the locale field is the first non-empty candidate of the chain
    platform-reported primary locale, legacy locale method, runtime's
    resolved locale (read only when the first two give nothing), and "en"
    when there is none; the language field is the text of that locale before
    its first hyphen, or "en" when that text is empty.  When the collection
    fails, the returned fingerprint has neither field. *)
Theorem locale_chain_and_language (E : env) (w : world) :
  (forall fp w',
     collect_fingerprint E w = (Ok fp, w') ->
     generateDeviceFingerprint E w = (Ok fp, w') /\
     exists locales legacy runtime chosen,
       optional (getDeviceLocales (device E)) = Ok locales /\
       optional (getDeviceLocale (device E)) = Ok legacy /\
       (truthy_opt (primary_locale locales) || truthy_opt (mjoin legacy) = false ->
        intl_locale (device E) = Ok (default [] runtime)) /\
       chosen
       = first_truthy [primary_locale locales; mjoin legacy; runtime] (lit "en") /\
       locale fp = Some chosen /\
       language fp
       = Some (if truthy (primary_subtag chosen) then primary_subtag chosen
               else lit "en")) /\
  (forall e w',
     collect_fingerprint E w = (Throw e, w') ->
     exists fp,
       generateDeviceFingerprint E w = (Ok fp, w') /\
       locale fp = None /\ language fp = None).
Proof.
  split.
  - intros fp w' Hc. split.
    + unfold generateDeviceFingerprint. now rewrite (try_catch_ok _ _ _ _ _ _ Hc).
    + apply collect_fingerprint_ok in Hc.
      destruct Hc as (_ & _ & _ & _ & _ & _ & _ & _ & _ & _ & _
                      & (ls & lg & rt & El & Elg & Ert & Eloc & Elang) & _).
      exists ls, lg, rt. eexists. repeat split; eauto.
      now rewrite Elang, language_of_spec.
  - intros e w' Hc. exists (minimal_fingerprint (device E)). split.
    + unfold generateDeviceFingerprint. now rewrite (try_catch_throw _ _ _ _ _ _ Hc).
    + split; reflexivity.
Qed.

(** * index.ts *)

Ltac stable_step :=
  lazymatch goal with
  | |- stable _ (bind _ _) => apply stable_bind; [| intros ?]
  | |- stable _ (try_catch _ _) => apply stable_try_catch; [| intros ?]
  | |- stable _ (ret _) => apply stable_ret
  | |- stable _ (throw _) => apply stable_throw
  | |- stable _ ask => apply stable_ask
  | |- stable _ get_world => apply stable_get_world
  | |- stable _ Date_now => apply stable_Date_now
  | |- stable _ (lift_outcome _) => apply stable_lift_outcome
  | |- stable _ (props _) => apply stable_props
  | |- stable _ (json _) => apply stable_json
  | |- stable _ (json_catch_empty _) => apply stable_json_catch_empty
  | |- stable _ (query _ _) => apply stable_query
  | |- stable _ (query_opt _ _) => apply stable_query_opt
  | |- stable _ (fetch _) => apply stable_fetch
  | |- stable _ (emit _) => apply stable_emit
  | |- stable _ (sleep _) => apply stable_sleep
  | |- stable _ (if ?b then _ else _) => destruct b
  | |- stable _ (match ?x with _ => _ end) => destruct x
  | |- stable _ (let _ := _ in _) => cbv zeta
  end.

Section StableFunctions.
Context (P : event -> Prop).

Lemma stable_generateDeviceFingerprint :
  (forall src, P (EvQuery src)) -> stable P generateDeviceFingerprint.
Proof.
  intros HP. unfold generateDeviceFingerprint, collect_fingerprint.
  repeat stable_step; apply HP.
Qed.

Lemma stable_trackCustomDeepLinkEvent ev k :
  P (EvFetch (analytics_request ev k)) ->
  stable P (trackCustomDeepLinkEvent ev k).
Proof.
  intros HP. unfold trackCustomDeepLinkEvent. repeat stable_step. exact HP.
Qed.

Lemma stable_trackAnalyticsEvent ev :
  (forall ev' k, P (EvFetch (analytics_request ev' k))) ->
  stable P (trackAnalyticsEvent ev).
Proof.
  intros HP. unfold trackAnalyticsEvent. repeat stable_step.
  apply stable_trackCustomDeepLinkEvent, HP.
Qed.

Lemma stable_trackDeepLinkResolved u src fp :
  (forall ev' k, P (EvFetch (analytics_request ev' k))) ->
  stable P (trackDeepLinkResolved u src fp).
Proof.
  intros HP. unfold trackDeepLinkResolved. repeat stable_step.
  apply stable_trackAnalyticsEvent, HP.
Qed.

Lemma stable_fetchDeepLinkUrl key fp ep timeout :
  (forall req, P (EvFetch req)) ->
  stable P (fetchDeepLinkUrl key fp ep timeout).
Proof.
  intros HP. unfold fetchDeepLinkUrl. repeat stable_step. apply HP.
Qed.

Lemma stable_retry_loop once n :
  stable P once -> (forall ms, P (EvSleep ms)) ->
  forall fuel k last, stable P (retry_loop fuel once n k last).
Proof.
  intros Honce HP. induction fuel as [| fuel IH]; intros k last; cbn [retry_loop].
  - apply stable_ret.
  - repeat stable_step; solve [exact Honce | apply HP | apply IH].
Qed.

Lemma stable_fetchDeepLinkUrlWithRetry key fp n ep timeout :
  (forall req, P (EvFetch req)) -> (forall ms, P (EvSleep ms)) ->
  stable P (fetchDeepLinkUrlWithRetry key fp n ep timeout).
Proof.
  intros HF HS. unfold fetchDeepLinkUrlWithRetry.
  apply stable_retry_loop; [now apply stable_fetchDeepLinkUrl | exact HS].
Qed.

End StableFunctions.

Lemma stable_call f u : stable any_event (call f u).
Proof. unfold call. repeat stable_step. exact I. Qed.

Lemma stable_getDeepLink cb : stable any_event (getDeepLink cb).
Proof.
  unfold getDeepLink, Linking_getInitialURL.
  repeat stable_step;
    solve [ exact I
          | apply stable_generateDeviceFingerprint; intros; exact I
          | apply stable_trackDeepLinkResolved; intros; exact I
          | apply stable_fetchDeepLinkUrlWithRetry; intros; exact I
          | apply stable_call ].
Qed.

Lemma total_trackCustomDeepLinkEvent ev k : total (trackCustomDeepLinkEvent ev k).
Proof. apply total_try_catch. intros e. apply total_ret. Qed.

Lemma extends_not_initialized P w w' :
  extends P w w' -> not_initialized w' = not_initialized w.
Proof. intros (Hk & Hi & _). unfold not_initialized. now rewrite Hk, Hi. Qed.

(** ** license.ts: the format check *)

Lemma trim_start_nil s : trim_start s = [] <-> whitespace_only s = true.
Proof.
  unfold whitespace_only. induction s as [| c s IH]; cbn; [tauto |].
  destruct (is_js_space c); cbn; [exact IH |].
  split; discriminate.
Qed.

Lemma trim_start_head s c r : trim_start s = c :: r -> is_js_space c = false.
Proof.
  induction s as [| x s IH]; cbn; [discriminate |].
  destruct (is_js_space x) eqn:Hx; [exact IH |].
  intros H. inversion H; subst. exact Hx.
Qed.

(** [trim] leaves nothing exactly when the string is empty or consists
    of white space. *)
Lemma trim_truthy s : truthy (trim s) = negb (whitespace_only s).
Proof.
  unfold trim. destruct (trim_start s) as [| c r] eqn:Hs.
  - apply trim_start_nil in Hs. now rewrite Hs.
  - assert (Hw : whitespace_only s = false).
    { destruct (whitespace_only s) eqn:Hw; trivial.
      apply trim_start_nil in Hw. congruence. }
    rewrite Hw. apply trim_start_head in Hs as Hc.
    destruct (trim_start (rev (c :: r))) as [| c' r'] eqn:Hr.
    + apply trim_start_nil in Hr. unfold whitespace_only in Hr.
      rewrite forallb_forall in Hr.
      rewrite (Hr c) in Hc; [discriminate |].
      apply in_rev. rewrite rev_involutive. now left.
    + cbn [rev]. now destruct (rev r').
Qed.

Lemma validateLicenseKeyFormat_spec key :
  isValid (validateLicenseKeyFormat key) = negb (whitespace_only key) /\
  (isValid (validateLicenseKeyFormat key) = false ->
   lv_message (validateLicenseKeyFormat key) = Some (lit "License key is required")).
Proof.
  unfold validateLicenseKeyFormat. rewrite trim_truthy.
  destruct key as [| c s]; [split; reflexivity |].
  cbn [truthy negb orb].
  destruct (whitespace_only (c :: s)); cbn; split; trivial; discriminate.
Qed.

(** ** init *)

(** The remote validation is one [fetch]; it succeeds only on a 2xx reply
    whose body has [success] and [valid], and a failure carries a
    message. *)
Lemma validateLicenseInit_run key E w :
  let req :=
    validate_request (BASE_API_URL ++ lit "/custom-deep-link/license/validate")
      key in
  exists v,
    validateLicenseInit key E w = (Ok v, log (EvFetch req) w) /\
    (iv_success v = true ->
     exists r d,
       net E (List.length (fetches (trace w))) req = NetResponse r /\
       resp_ok r = true /\ resp_json r = JsonObject d /\
       b_success d = true /\ b_valid d = true) /\
    (iv_success v = false -> truthy_opt (iv_error v) = true).
Proof.
  intros req. subst req. unfold validateLicenseInit. exec.
  destruct (net E _ _) as [e | r] eqn:Hnet.
  { eexists. split; [reflexivity |]. split; [discriminate |]. intros _.
    cbn [iv_error truthy_opt]. now apply or_else_truthy. }
  destruct (resp_json r) as [d | | e] eqn:Hjson; cbn [negb];
    destruct (resp_ok r) eqn:Hok; cbn [negb];
    try (eexists; split; [reflexivity |]; split; [discriminate |]; intros _;
         cbn [iv_error truthy_opt]; now apply or_else_truthy).
  destruct (b_success d) eqn:Hs; destruct (b_valid d) eqn:Hv; cbn [negb orb];
    try (eexists; split; [reflexivity |]; split; [discriminate |]; intros _;
         cbn [iv_error truthy_opt]; now apply or_else_truthy).
  eexists. split; [reflexivity |]. split; [| discriminate].
  intros _. exists r, d. auto.
Qed.

(** [init] always returns, and a failed [init] leaves the module state
    as it was. *)
Lemma init_failure_state key E w :
  exists r w',
    init key E w = (Ok r, w') /\
    (init_success r = false ->
     storedLicenseKey w' = storedLicenseKey w /\
     isInitialized w' = isInitialized w).
Proof.
  unfold init, try_catch.
  destruct (isValid (validateLicenseKeyFormat key)); cbn [negb].
  - destruct (validateLicenseInit_run key E w) as (v & Hrun & _).
    unfold bind at 1. rewrite Hrun.
    destruct (iv_success v); cbn [negb];
      eexists; eexists; (split; [reflexivity |]); [discriminate | auto].
  - eexists; eexists. split; [reflexivity | auto].
Qed.

(** ** C5 *)

(** C5.  [init] always returns.  For an empty or white-space key it fails
    with "License key is required" and does nothing at all (no network
    call).  Whenever it fails it carries a non-empty error and leaves the
    stored key and the initialized flag as they were, so [isReady] stays
    false if it was.  It succeeds, storing the key and setting the flag,
    only when the format check passes and the validation service answers 2xx
    with [success] and [valid]; the state changes only on success. *)
Theorem init_contract (licenseKey : jsstring) (E : env) (w : world) :
  exists r w',
    init licenseKey E w = (Ok r, w') /\
    (whitespace_only licenseKey = true ->
     r = {| init_success := false;
            init_error := Some (lit "License key is required") |} /\
     w' = w) /\
    (init_success r = false ->
     truthy_opt (init_error r) = true /\
     storedLicenseKey w' = storedLicenseKey w /\
     isInitialized w' = isInitialized w /\
     (isReady w = false -> isReady w' = false)) /\
    (init_success r = true ->
     isValid (validateLicenseKeyFormat licenseKey) = true /\
     (exists resp d,
        net E (List.length (fetches (trace w)))
          (validate_request
             (BASE_API_URL ++ lit "/custom-deep-link/license/validate")
             licenseKey)
        = NetResponse resp /\
        resp_ok resp = true /\ resp_json resp = JsonObject d /\
        b_success d = true /\ b_valid d = true) /\
     storedLicenseKey w' = Some licenseKey /\ isInitialized w' = true /\
     isReady w' = true) /\
    (storedLicenseKey w' <> storedLicenseKey w \/
     isInitialized w' <> isInitialized w ->
     init_success r = true).
Proof.
  destruct (validateLicenseKeyFormat_spec licenseKey) as [Hfmt Hmsg].
  unfold init, try_catch.
  destruct (isValid (validateLicenseKeyFormat licenseKey)) eqn:Hvalid; cbn [negb].
  - (* well-formed key: the validation service decides *)
    destruct (validateLicenseInit_run licenseKey E w) as (v & Hrun & Hyes & Hno).
    unfold bind at 1. rewrite Hrun.
    destruct (iv_success v) eqn:Hv; cbn [negb].
    + eexists; eexists. split; [reflexivity |].
      split; [intros Hws; rewrite Hws in Hfmt; discriminate |].
      split; [discriminate |].
      split; [| reflexivity].
      intros _. repeat split; auto.
    + eexists; eexists. split; [reflexivity |].
      split; [intros Hws; rewrite Hws in Hfmt; discriminate |].
      split; [| split; [discriminate | intros [H | H]; now elim H]].
      intros _. cbn [init_error truthy_opt storedLicenseKey isInitialized log].
      split; [now apply or_else_truthy | auto].
  - (* ill-formed key: nothing happens *)
    rewrite (Hmsg eq_refl).
    eexists; eexists. split; [reflexivity |].
    split; [intros _; split; reflexivity |].
    split; [| split; [discriminate | intros [H | H]; now elim H]].
    intros _. repeat split; auto.
Qed.

(** ** C8 *)

Lemma getDeepLink_not_initialized cb E w :
  not_initialized w = true ->
  getDeepLink cb E w = (Ok not_initialized_response, w).
Proof.
  intros H. unfold getDeepLink, bind, get_world. now rewrite H.
Qed.

Lemma perform_state c E w :
  let '(r, w') := perform c E w in
  match c, r with
  | CallReset, _ => not_initialized w' = true
  | CallInit _, Ok true => True
  | _, _ => not_initialized w' = not_initialized w
  end.
Proof.
  destruct c as [k | | cb | ev]; cbn [perform].
  - destruct (init_failure_state k E w) as (r & w' & Hrun & Hfail).
    unfold bind. rewrite Hrun. cbn [ret].
    destruct (init_success r); [exact I |].
    destruct (Hfail eq_refl) as (Hk & Hi).
    unfold not_initialized. now rewrite Hk, Hi.
  - reflexivity.
  - pose proof (stable_getDeepLink cb E w) as Hst.
    unfold bind. destruct (getDeepLink cb E w) as [[r | e] w']; cbn in *;
      eapply extends_not_initialized; eauto.
  - assert (Hst : stable any_event (trackAnalyticsEvent ev))
      by (apply stable_trackAnalyticsEvent; intros; exact I).
    specialize (Hst E w).
    unfold bind. destruct (trackAnalyticsEvent ev E w) as [[r | e] w']; cbn in *;
      eapply extends_not_initialized; eauto.
Qed.

(** As long as no [init] has succeeded since the start or the last
    [reset], the module is not initialized. *)
Lemma replay_not_live E cs : forall w live,
  (live = false -> not_initialized w = true) ->
  snd (replay E cs w live) = false ->
  not_initialized (fst (replay E cs w live)) = true.
Proof.
  induction cs as [| c cs IH]; intros w live Hinv Hend; cbn in *.
  - auto.
  - pose proof (perform_state c E w) as Hc.
    destruct (perform c E w) as [r w'].
    apply IH; [| exact Hend].
    destruct c as [k | | cb | ev].
    + destruct r as [[|] | e]; intros Hl; try discriminate; rewrite Hc; auto.
    + intros _. exact Hc.
    + intros Hl. rewrite Hc. auto.
    + intros Hl. rewrite Hc. auto.
Qed.

(** C8.  After any history of calls in which no [init] has succeeded
    since the start or since the last [reset], [getDeepLink] returns the
    failure "Please call init() first with your license key" and leaves the
    world as it is: no network call, no fingerprint collection, nothing
    added to the trace. *)
Theorem getDeepLink_requires_init
    (E : env) (history : list api_call) (cb : option callback) :
  snd (replay E history initial_world false) = false ->
  let w := fst (replay E history initial_world false) in
  getDeepLink cb E w
  = (Ok {| success := false; url := UrlAbsent; message := None;
           error := Some (lit "Please call init() first with your license key") |},
     w).
Proof.
  intros Hlive w. apply getDeepLink_not_initialized.
  apply replay_not_live; [reflexivity | exact Hlive].
Qed.

Lemma getDeepLink_requires_init_witness :
  let history := [CallInit (lit "KEY-1"); CallGetDeepLink None; CallReset] in
  let w := fst (replay friendly_env history initial_world false) in
  isInitialized (fst (replay friendly_env [CallInit (lit "KEY-1")]
                        initial_world false)) = true /\
  getDeepLink None friendly_env w
  = (Ok {| success := false; url := UrlAbsent; message := None;
           error := Some (lit "Please call init() first with your license key") |},
     w).
Proof.
  split; [vm_compute; reflexivity |].
  apply (getDeepLink_requires_init friendly_env
           [CallInit (lit "KEY-1"); CallGetDeepLink None; CallReset] None).
  vm_compute. reflexivity.
Defined.

(** ** C3 *)

Lemma probe_run E w o :
  getInitialURL E = Ok o ->
  Linking_getInitialURL E w = (Ok o, log EvProbe w).
Proof.
  intros H. unfold Linking_getInitialURL. exec. now rewrite H.
Qed.

(** The analytics side effect of the launch-URL path: it always returns,
    and it never calls the Matching Service. *)
Lemma linking_side_effect u E w :
  exists w',
    try_catch
      (let* fingerprint := generateDeviceFingerprint in
       trackDeepLinkResolved u Linking (Some fingerprint))
      (fun _ => ret tt) E w = (Ok tt, w') /\
    extends quiet w w'.
Proof.
  set (m := try_catch _ _).
  assert (Ht : total m) by (apply total_try_catch; intros e; apply total_ret).
  assert (Hs : stable quiet m).
  { subst m. repeat stable_step.
    - apply stable_generateDeviceFingerprint. reflexivity.
    - apply stable_trackDeepLinkResolved. reflexivity. }
  destruct (total_run m E w Ht) as ([] & w' & Hrun).
  exists w'. split; [exact Hrun |].
  specialize (Hs E w). now rewrite Hrun in Hs.
Qed.

(** C3.  When the module is initialized and the OS launch-URL probe
    returns a non-empty URL [u], [getDeepLink] returns without any request
    to the Matching Service, whatever the device sources and the analytics
    call do (they may throw or fail), and its result is exactly
    [{success: true, url: u}]; the caller's callback, if there is one, is
    assumed to return normally. *)
Theorem getDeepLink_launch_url
    (E : env) (cb : option callback) (w : world) (u : jsstring) :
  not_initialized w = false ->
  getInitialURL E = Ok (Some u) ->
  truthy u = true ->
  exists r w',
    getDeepLink cb E w = (Ok r, w') /\
    extends quiet w w' /\
    ((forall f, cb = Some f -> f u = None) ->
     r = {| success := true; url := UrlStr u; message := None; error := None |}).
Proof.
  intros Hinit Hprobe Hu. unfold getDeepLink.
  unfold bind at 1, get_world. rewrite Hinit.
  unfold try_catch at 1.
  rewrite (bind_run _ _ _ _ _ _ (probe_run E w _ Hprobe)).
  cbn [truthy_opt default id]. rewrite Hu.
  destruct (linking_side_effect u E (log EvProbe w)) as (w2 & Hside & Hext).
  rewrite (bind_run _ _ _ _ _ _ Hside).
  assert (Hw2 : extends quiet w w2).
  { eapply extends_trans; [| exact Hext]. now apply extends_log. }
  destruct cb as [f |].
  - assert (Hw3 : extends quiet w (log (EvCallback u) w2)).
    { eapply extends_trans; [exact Hw2 |]. now apply extends_log. }
    unfold call. exec. destruct (f u) as [e |] eqn:Hf.
    + eexists; eexists. split; [reflexivity |]. split; [exact Hw3 |].
      intros Hcb. rewrite (Hcb f eq_refl) in Hf. discriminate.
    + eexists; eexists. split; [reflexivity |]. split; [exact Hw3 |]. trivial.
  - eexists; eexists. split; [reflexivity |]. split; [exact Hw2 |]. trivial.
Qed.

Lemma getDeepLink_launch_url_witness :
  exists r w',
    getDeepLink None
      (reply_env {| resp_status := 500; resp_json := JsonNull |}
         (Some (lit "myapp://promo/42")))
      ready_world
    = (Ok r, w') /\
    extends quiet ready_world w' /\
    r = {| success := true; url := UrlStr (lit "myapp://promo/42");
           message := None; error := None |}.
Proof.
  destruct (getDeepLink_launch_url
              (reply_env {| resp_status := 500; resp_json := JsonNull |}
                 (Some (lit "myapp://promo/42")))
              None ready_world (lit "myapp://promo/42"))
    as (r & w' & Hrun & Hquiet & Hhit).
  - reflexivity.
  - reflexivity.
  - reflexivity.
  - exists r, w'. split; [exact Hrun |]. split; [exact Hquiet |].
    apply Hhit. intros f H. discriminate H.
Defined.

(** A callback that throws is caught by the outer handler of
    [getDeepLink], which then reports a failure. *)
Lemma getDeepLink_callback_throws :
  fst (getDeepLink (Some throwing_callback)
         (reply_env {| resp_status := 500; resp_json := JsonNull |}
            (Some (lit "myapp://promo/42")))
         ready_world)
  = Ok (failure (lit "boom")).
Proof. vm_compute. reflexivity. Qed.

(** ** C1 *)

(** An attempt whose network call fails at the transport level is a
    failure. *)
Lemma fetchDeepLinkUrl_transport_failure key fp ep timeout E :
  (forall n req, transport_failure (net E n req) = true) ->
  forall w r w',
    fetchDeepLinkUrl key fp ep timeout E w = (Ok r, w') -> success r = false.
Proof.
  intros Hnet w r w'. unfold fetchDeepLinkUrl. exec.
  destruct (isValid (validateLicenseKeyFormat key)); cbn [negb].
  - match goal with
    | |- context [net E ?n ?req] =>
        pose proof (Hnet n req) as Hfail; destruct (net E n req) as [e | resp]
    end.
    + destruct (eqb (err_name e) (lit "AbortError"));
        intros H; inversion H; reflexivity.
    + cbn [transport_failure] in Hfail. rewrite Hfail.
      destruct (resp_json resp); intros H; inversion H; reflexivity.
  - intros H. inversion H. reflexivity.
Qed.

Lemma retry_run_failure once E n k w j r w' :
  (forall w0 r0 w1, once E w0 = (Ok r0, w1) -> success r0 = false) ->
  retry_run once E n k w j r w' -> success r = false.
Proof. intros Honce. induction 1; eauto. Qed.

(** What [getDeepLink] does with a failure of the Resolution Client. *)
Lemma getDeepLink_client_failure E cb w o fp w1 res w2 :
  not_initialized w = false ->
  getInitialURL E = Ok o -> truthy_opt o = false ->
  generateDeviceFingerprint E (log EvProbe w) = (Ok fp, w1) ->
  fetchDeepLinkUrlWithRetry (default [] (storedLicenseKey w1)) fp (Some 3%nat)
    (Some DEFAULT_API_ENDPOINT) None E w1 = (Ok res, w2) ->
  success res = false ->
  getDeepLink cb E w = (Ok no_deep_link, w2).
Proof.
  intros Hinit Hprobe Ho Hfp Hretry Hfail. unfold getDeepLink.
  unfold bind at 1, get_world. rewrite Hinit.
  unfold try_catch at 1.
  rewrite (bind_run _ _ _ _ _ _ (probe_run E w _ Hprobe)). rewrite Ho.
  rewrite (bind_run _ _ _ _ _ _ Hfp).
  unfold bind at 1, get_world.
  rewrite (bind_run _ _ _ _ _ _ Hretry).
  cbv zeta. rewrite Hfail. cbn [andb negb orb].
  destruct cb; reflexivity.
Qed.

Lemma failure_not_surfaced_counterexample :
  (forall n req, transport_failure (net offline_env n req) = true) /\
  getInitialURL offline_env = Ok None /\
  not_initialized ready_world = false /\
  exists w',
    getDeepLink None offline_env ready_world
    = (Ok {| success := true; url := UrlNull;
             message := Some (lit "No deep link available"); error := None |},
       w') /\
    List.length (fetches (trace w')) = 3%nat /\
    sleeps (trace w') = [1000; 2000].
Proof.
  split; [reflexivity |]. split; [reflexivity |]. split; [reflexivity |].
  eexists. split; [vm_compute; reflexivity |]. split; reflexivity.
Qed.

(** C1 (amended).  When the module is initialized, the launch-URL probe
    returns none and every network call of the Resolution Client fails at
    the transport level (rejected or timed out request, non-2xx status),
    [getDeepLink] returns [{success: true, url: null, message: "No deep link
    available"}]: the failure is reported in the shape of a Miss and its
    error message is dropped. *)
Theorem getDeepLink_failure_as_miss
    (E : env) (cb : option callback) (w : world) (o : option jsstring) :
  not_initialized w = false ->
  getInitialURL E = Ok o ->
  truthy_opt o = false ->
  (forall n req, transport_failure (net E n req) = true) ->
  exists w',
    getDeepLink cb E w
    = (Ok {| success := true; url := UrlNull;
             message := Some (lit "No deep link available"); error := None |},
       w').
Proof.
  intros Hinit Hprobe Ho Hnet.
  destruct (total_run generateDeviceFingerprint E (log EvProbe w)
              generateDeviceFingerprint_total) as (fp & w1 & Hfp).
  destruct (retry_loop_run
              (fetchDeepLinkUrl (default [] (storedLicenseKey w1)) fp
                 (Some DEFAULT_API_ENDPOINT) None)
              E 3 (fun w0 => fetchDeepLinkUrl_run _ _ _ _ E w0) 4 1%nat None w1)
    as (j & res & w2 & Hretry & Hrun & _); [lia | lia |].
  exists w2. eapply getDeepLink_client_failure; eauto.
  eapply retry_run_failure; [| exact Hrun].
  now apply fetchDeepLinkUrl_transport_failure.
Qed.

Lemma getDeepLink_failure_as_miss_witness :
  exists w',
    getDeepLink None offline_env ready_world
    = (Ok {| success := true; url := UrlNull;
             message := Some (lit "No deep link available"); error := None |},
       w').
Proof.
  apply (getDeepLink_failure_as_miss offline_env None ready_world None).
  - reflexivity.
  - reflexivity.
  - reflexivity.
  - intros n req. reflexivity.
Defined.

(** ** C10 *)

(** C10.  While the module is initialized, [trackAnalyticsEvent] sends
    exactly one request, to the analytics endpoint, whose body is the event
    without its [licenseKey] field and with every other field unchanged, and
    whose headers are the content type and the stored license key under
    [x-license-key]. *)
Theorem trackAnalyticsEvent_forwarding
    (E : env) (ev : analytics_event) (w : world) :
  not_initialized w = false ->
  exists key (payload : analytics_event) req r,
    storedLicenseKey w = Some key /\
    trackAnalyticsEvent ev E w = (Ok r, log (EvFetch req) w) /\
    req_url req = ANALYTICS_ENDPOINT /\
    req_body req = BodyEvent payload /\
    payload !! lit "licenseKey" = None /\
    (forall k, k <> lit "licenseKey" -> payload !! k = ev !! k) /\
    req_headers req
    = [(lit "Content-Type", lit "application/json");
       (lit "x-license-key", key)].
Proof.
  intros Hinit. unfold not_initialized in Hinit.
  apply orb_false_elim in Hinit as [Hi Hkey].
  apply negb_false_iff in Hi. apply negb_false_iff in Hkey.
  destruct (storedLicenseKey w) as [key |] eqn:Hstored; [| discriminate].
  cbn [truthy_opt] in Hkey.
  destruct (total_run (trackCustomDeepLinkEvent
                         (delete (lit "licenseKey") ev) (Some key)) E w
              (total_trackCustomDeepLinkEvent _ _)) as (r & w' & Hrun).
  assert (Hw' : w' = log (EvFetch (analytics_request
                                     (delete (lit "licenseKey") ev) (Some key))) w).
  { revert Hrun. unfold trackCustomDeepLinkEvent. exec.
    destruct (net E _ _) as [e | resp]; [intros H; now inversion H |].
    destruct (resp_json resp); intros H; now inversion H. }
  subst w'.
  exists key, (delete (lit "licenseKey") ev),
    (analytics_request (delete (lit "licenseKey") ev) (Some key)), r.
  split; [reflexivity |]. split.
  { unfold trackAnalyticsEvent, bind at 1, get_world.
    unfold not_initialized. rewrite Hstored, Hi. cbn [truthy_opt].
    rewrite Hkey. exact Hrun. }
  split; [reflexivity |]. split; [reflexivity |].
  split; [apply lookup_delete_eq |].
  split; [intros k Hk; now apply lookup_delete_ne |].
  unfold analytics_request, json_headers. cbn [req_headers]. now rewrite Hkey.
Qed.

Lemma trackAnalyticsEvent_forwarding_witness :
  let ev : analytics_event :=
    {[ lit "licenseKey" := EStr (lit "SPOOFED");
       lit "eventName" := EStr (lit "purchase") ]} in
  exists key (payload : analytics_event) req r,
    storedLicenseKey ready_world = Some key /\
    trackAnalyticsEvent ev friendly_env ready_world
    = (Ok r, log (EvFetch req) ready_world) /\
    req_url req = ANALYTICS_ENDPOINT /\
    req_body req = BodyEvent payload /\
    payload !! lit "licenseKey" = None /\
    (forall k, k <> lit "licenseKey" -> payload !! k = ev !! k) /\
    req_headers req
    = [(lit "Content-Type", lit "application/json");
       (lit "x-license-key", key)].
Proof.
  intros ev.
  apply (trackAnalyticsEvent_forwarding friendly_env ev ready_world).
  reflexivity.
Defined.

(** * Further properties *)

(** ** license.ts *)

(** X1.  The format check rejects exactly the keys that are empty or made
    of white space and line terminators only, with the message
    "License key is required"; every other key is accepted as it is, and
    without a message. *)
Theorem validateLicenseKeyFormat_blank (key : jsstring) :
  (isValid (validateLicenseKeyFormat key) = false <->
   whitespace_only key = true) /\
  (whitespace_only key = true ->
   validateLicenseKeyFormat key
   = {| isValid := false;
        lv_message := Some (lit "License key is required") |}) /\
  (forall c, In c key -> is_js_space c = false ->
   validateLicenseKeyFormat key = {| isValid := true; lv_message := None |}).
Proof.
  destruct (validateLicenseKeyFormat_spec key) as [Hv Hm].
  assert (Hrec : forall b, isValid (validateLicenseKeyFormat key) = b ->
                 validateLicenseKeyFormat key
                 = if b then {| isValid := true; lv_message := None |}
                   else {| isValid := false;
                           lv_message := Some (lit "License key is required") |}).
  { intros b. unfold validateLicenseKeyFormat.
    destruct (negb (truthy key) || negb (truthy (trim key)));
      cbn [isValid]; intros <-; reflexivity. }
  split; [| split].
  - rewrite Hv. destruct (whitespace_only key); cbn; split; congruence.
  - intros Hw. apply (Hrec false). rewrite Hv, Hw. reflexivity.
  - intros c Hin Hc. apply (Hrec true). rewrite Hv.
    destruct (whitespace_only key) eqn:Hw; [| reflexivity].
    unfold whitespace_only in Hw. rewrite forallb_forall in Hw.
    rewrite (Hw c Hin) in Hc. discriminate.
Qed.

(** ** api.ts: one attempt *)

Lemma failure_well_formed msg :
  truthy msg = true -> well_formed_response (failure msg).
Proof. intros H. right. repeat split. exact H. Qed.

Lemma if_truthy (s d : jsstring) :
  truthy d = true -> truthy (if truthy s then s else d) = true.
Proof. intros Hd. now destruct (truthy s) eqn:Hs. Qed.

Ltac truthy_message :=
  first [ reflexivity
        | apply or_else_truthy; reflexivity
        | apply if_truthy; reflexivity ].

(** Every result of an attempt is well formed. *)
Lemma fetchDeepLinkUrl_well_formed key fp ep timeout E w r w' :
  fetchDeepLinkUrl key fp ep timeout E w = (Ok r, w') ->
  well_formed_response r.
Proof.
  unfold fetchDeepLinkUrl. exec.
  destruct (isValid (validateLicenseKeyFormat key)) eqn:Hv; cbn [negb].
  2:{ intros [= <- _]. apply failure_well_formed. truthy_message. }
  destruct (net E _ _) as [e | resp].
  { destruct (eqb (err_name e) (lit "AbortError")); intros [= <- _];
      apply failure_well_formed; truthy_message. }
  destruct (resp_ok resp); cbn [negb];
    destruct (resp_json resp) as [d | | e];
    try (intros [= <- _]; apply failure_well_formed; truthy_message).
  - destruct (b_success d).
    + destruct (b_url d) as [u |] eqn:Hu; cbn [truthy_opt].
      * destruct (truthy u) eqn:Htu; intros [= <- _].
        -- left. cbn. repeat split. right. eauto.
        -- left. cbn. repeat split. now left.
      * intros [= <- _]. left. cbn. repeat split. now left.
    + intros [= <- _]. apply failure_well_formed. truthy_message.
  - destruct (eqb (err_name e) (lit "AbortError")); intros [= <- _];
      apply failure_well_formed; truthy_message.
Qed.

(** X2.  [fetchDeepLinkUrl] never throws, whatever the key, the network
    and the reply: it returns a well-formed response (a success without
    error whose URL is null or non-empty, or a failure with a non-empty
    error), leaves the module state alone and issues at most one request. *)
Theorem fetchDeepLinkUrl_safe
    (licenseKey : jsstring) (fp : DeviceFingerprint)
    (apiEndpoint : option jsstring) (timeout : option N)
    (E : env) (w : world) :
  exists r w',
    fetchDeepLinkUrl licenseKey fp apiEndpoint timeout E w = (Ok r, w') /\
    well_formed_response r /\
    storedLicenseKey w' = storedLicenseKey w /\
    isInitialized w' = isInitialized w /\
    (trace w' = trace w \/ exists req, trace w' = trace w ++ [EvFetch req]).
Proof.
  destruct (fetchDeepLinkUrl_run licenseKey fp apiEndpoint timeout E w)
    as (r & w' & Hrun & Hw).
  exists r, w'. split; [exact Hrun |].
  split; [eapply fetchDeepLinkUrl_well_formed; eauto |].
  destruct Hw as [-> | [req ->]]; cbn; eauto.
Qed.

(** X3.  For an empty or white-space license key [fetchDeepLinkUrl] fails
    with "License key is required" before any I/O: the world is left as it
    was. *)
Theorem fetchDeepLinkUrl_blank_key
    (licenseKey : jsstring) (fp : DeviceFingerprint)
    (apiEndpoint : option jsstring) (timeout : option N)
    (E : env) (w : world) :
  whitespace_only licenseKey = true ->
  fetchDeepLinkUrl licenseKey fp apiEndpoint timeout E w
  = (Ok {| success := false; url := UrlAbsent; message := None;
           error := Some (lit "License key is required") |}, w).
Proof.
  intros Hw. apply fetchDeepLinkUrl_invalid.
  destruct (validateLicenseKeyFormat_spec licenseKey) as [-> _].
  now rewrite Hw.
Qed.

Lemma fetchDeepLinkUrl_blank_key_witness :
  fetchDeepLinkUrl (lit "   ") sample_fingerprint None None offline_env
    ready_world
  = (Ok {| success := false; url := UrlAbsent; message := None;
           error := Some (lit "License key is required") |}, ready_world).
Proof.
  apply (fetchDeepLinkUrl_blank_key (lit "   ") sample_fingerprint None None
           offline_env ready_world).
  reflexivity.
Defined.

(** X4.  With a well-formed key, a rejected request is a failure: "Request
    timeout" when the rejection is an [AbortError] (the abort timer fired),
    otherwise the message of the error, or "Failed to fetch deep link URL"
    when that message is empty. *)
Theorem fetchDeepLinkUrl_rejected
    (licenseKey : jsstring) (fp : DeviceFingerprint)
    (apiEndpoint : option jsstring) (timeout : option N)
    (E : env) (w : world) (e : jserror) :
  let req :=
    resolve_request (or_else apiEndpoint BASE_API_URL) licenseKey
      (BodyResolve licenseKey fp (now E (List.length (trace w))))
      (default 10000 timeout) in
  isValid (validateLicenseKeyFormat licenseKey) = true ->
  net E (List.length (fetches (trace w))) req = NetReject e ->
  exists r,
    fetchDeepLinkUrl licenseKey fp apiEndpoint timeout E w
    = (Ok r, log (EvFetch req) w) /\
    (err_name e = lit "AbortError" -> r = failure (lit "Request timeout")) /\
    (err_name e <> lit "AbortError" ->
     r = failure (if truthy (err_message e) then err_message e
                  else lit "Failed to fetch deep link URL")).
Proof.
  intros req Hvalid Hnet. subst req.
  unfold fetchDeepLinkUrl. exec. rewrite Hvalid. cbn [negb]. rewrite Hnet.
  unfold eqb. destruct (bool_decide_reflect (err_name e = lit "AbortError"))
    as [Hname | Hname].
  - eexists. split; [reflexivity |]. split; [reflexivity | congruence].
  - eexists. split; [reflexivity |]. split; [congruence | reflexivity].
Qed.

Lemma fetchDeepLinkUrl_rejected_witness :
  exists r,
    fetchDeepLinkUrl (lit "KEY-1") sample_fingerprint None None timeout_env
      ready_world
    = (Ok r,
       log (EvFetch
              (resolve_request BASE_API_URL (lit "KEY-1")
                 (BodyResolve (lit "KEY-1") sample_fingerprint 1700000000000%Z)
                 10000))
         ready_world) /\
    r = failure (lit "Request timeout").
Proof.
  destruct (fetchDeepLinkUrl_rejected (lit "KEY-1") sample_fingerprint None None
              timeout_env ready_world aborted) as (r & Hrun & Habort & _).
  - reflexivity.
  - reflexivity.
  - exists r. split; [exact Hrun |]. apply Habort. reflexivity.
Defined.

(** X5.  With a well-formed key, a reply whose status is not 2xx is a
    failure whatever its body says: its error is the [message] of the body
    when that is a non-empty string, and "API error: " followed by the
    status otherwise, also when the body is not JSON. *)
Theorem fetchDeepLinkUrl_http_error
    (licenseKey : jsstring) (fp : DeviceFingerprint)
    (apiEndpoint : option jsstring) (timeout : option N)
    (E : env) (w : world) (resp : response) :
  let req :=
    resolve_request (or_else apiEndpoint BASE_API_URL) licenseKey
      (BodyResolve licenseKey fp (now E (List.length (trace w))))
      (default 10000 timeout) in
  let generic := lit "API error: " ++ of_Z (Z.of_N (resp_status resp)) in
  isValid (validateLicenseKeyFormat licenseKey) = true ->
  net E (List.length (fetches (trace w))) req = NetResponse resp ->
  resp_ok resp = false ->
  (forall d, resp_json resp = JsonObject d ->
   fetchDeepLinkUrl licenseKey fp apiEndpoint timeout E w
   = (Ok (failure (match b_message d with
                   | Some m => if truthy m then m else generic
                   | None => generic
                   end)),
      log (EvFetch req) w)) /\
  (forall e, resp_json resp = JsonInvalid e ->
   fetchDeepLinkUrl licenseKey fp apiEndpoint timeout E w
   = (Ok (failure generic), log (EvFetch req) w)).
Proof.
  intros req generic Hvalid Hnet Hok. subst req generic.
  split; intros x Hjson; unfold fetchDeepLinkUrl; exec;
    rewrite Hvalid; cbn [negb]; rewrite Hnet, Hok; cbn [negb];
    rewrite Hjson; reflexivity.
Qed.

Lemma fetchDeepLinkUrl_http_error_witness :
  fetchDeepLinkUrl (lit "KEY-1") sample_fingerprint None None
    invalid_license_env ready_world
  = (Ok (failure (lit "Invalid license key")),
     log (EvFetch
            (resolve_request BASE_API_URL (lit "KEY-1")
               (BodyResolve (lit "KEY-1") sample_fingerprint 1700000000000%Z)
               10000))
       ready_world).
Proof.
  destruct (fetchDeepLinkUrl_http_error (lit "KEY-1") sample_fingerprint None
              None invalid_license_env ready_world
              {| resp_status := 401;
                 resp_json :=
                   JsonObject {| b_success := false; b_valid := false;
                                 b_url := None;
                                 b_message := Some (lit "Invalid license key");
                                 b_error := None |} |})
    as [Hobj _].
  - reflexivity.
  - reflexivity.
  - reflexivity.
  - apply (Hobj _ eq_refl).
Defined.

(** X6.  With a well-formed key, an attempt sends exactly one request,
    whatever comes back: to [apiEndpoint], or to the base URL when that is
    absent or empty, with the key in the [x-license-key] header and in the
    body next to the fingerprint and the current time, and with an abort
    timer of [timeout], 10000 ms when absent. *)
Theorem fetchDeepLinkUrl_request
    (licenseKey : jsstring) (fp : DeviceFingerprint)
    (apiEndpoint : option jsstring) (timeout : option N)
    (E : env) (w : world) :
  isValid (validateLicenseKeyFormat licenseKey) = true ->
  exists r req,
    fetchDeepLinkUrl licenseKey fp apiEndpoint timeout E w
    = (Ok r, log (EvFetch req) w) /\
    req_url req
    = match apiEndpoint with
      | Some u => if truthy u then u else lit "https://api.prodeeplinks.com"
      | None => lit "https://api.prodeeplinks.com"
      end /\
    req_headers req
    = [(lit "Content-Type", lit "application/json");
       (lit "x-license-key", licenseKey)] /\
    req_body req
    = BodyResolve licenseKey fp (now E (List.length (trace w))) /\
    req_timeout req
    = Some (match timeout with Some t => t | None => 10000 end).
Proof.
  intros Hvalid.
  destruct (fetchDeepLinkUrl_valid licenseKey fp apiEndpoint timeout E w Hvalid)
    as [r Hrun].
  eexists; eexists. split; [exact Hrun |].
  repeat split; now destruct timeout.
Qed.

Lemma fetchDeepLinkUrl_request_witness :
  exists r req,
    fetchDeepLinkUrl (lit "KEY-1") sample_fingerprint (Some []) None
      offline_env ready_world
    = (Ok r, log (EvFetch req) ready_world) /\
    req_url req = lit "https://api.prodeeplinks.com" /\
    req_headers req
    = [(lit "Content-Type", lit "application/json");
       (lit "x-license-key", lit "KEY-1")] /\
    req_body req
    = BodyResolve (lit "KEY-1") sample_fingerprint 1700000000000%Z /\
    req_timeout req = Some 10000.
Proof.
  apply (fetchDeepLinkUrl_request (lit "KEY-1") sample_fingerprint (Some [])
           None offline_env ready_world).
  reflexivity.
Defined.

(** ** api.ts: the retry loop *)

Section RetryConstant.
Context (once : M DeepLinkResponse) (E : env) (n : nat)
        (r0 : DeepLinkResponse) (c : nat).

(** Every attempt gives the same retryable failure and issues [c]
    requests. *)
Hypothesis r0_fails : success r0 = false.
Hypothesis r0_retryable : no_retry r0 = false.
Hypothesis once_r0 : forall w, exists w1,
  once E w = (Ok r0, w1) /\
  sleeps (trace w1) = sleeps (trace w) /\
  List.length (fetches (trace w1)) = (List.length (fetches (trace w)) + c)%nat.

Lemma retry_loop_constant fuel : forall k last w,
  (1 <= k <= n)%nat -> (n < k + fuel)%nat ->
  exists w',
    retry_loop fuel once n k last E w = (Ok r0, w') /\
    sleeps (trace w') = sleeps (trace w) ++ backoff k n /\
    List.length (fetches (trace w'))
    = (List.length (fetches (trace w)) + c * (S n - k))%nat.
Proof.
  induction fuel as [| fuel IH]; intros k last w Hk Hfuel; [lia |].
  destruct (once_r0 w) as (w1 & Hrun & Hs1 & Hf1).
  cbn [retry_loop].
  destruct (Nat.leb_spec k n) as [_ | ?]; [| lia].
  unfold bind at 1. rewrite Hrun, r0_fails, r0_retryable.
  destruct (Nat.ltb_spec k n) as [Hlt | Hge].
  - unfold bind at 1, sleep, emit.
    destruct (IH (S k) (Some r0) (log (EvSleep (1000 * N.of_nat k)) w1))
      as (w' & Hloop & Hsl & Hfe); [lia | lia |].
    exists w'. rewrite Hloop. split; [reflexivity |]. split.
    + rewrite Hsl, sleeps_log_sleep, Hs1, <- app_assoc.
      now rewrite (backoff_cons k n) by lia.
    + rewrite Hfe, fetches_log_sleep, Hf1. nia.
  - unfold bind at 1, ret.
    rewrite retry_loop_exit by lia. cbn [default].
    assert (k = n) by lia. subst k.
    exists w1. split; [reflexivity |]. split.
    + now rewrite backoff_nil, app_nil_r.
    + rewrite Hf1. replace (S n - n)%nat with 1%nat by lia. lia.
Qed.
End RetryConstant.

(** X7.  The message of the format check does not stop the retry loop:
    for an empty or white-space key and [n >= 1] attempts,
    [fetchDeepLinkUrlWithRetry] goes through the whole backoff (1000, 2000,
    ..., [1000 * (n-1)] ms) without a single network call, and returns
    "License key is required". *)
Theorem retry_blank_key
    (licenseKey : jsstring) (fp : DeviceFingerprint) (n : nat)
    (apiEndpoint : option jsstring) (timeout : option N)
    (E : env) (w : world) :
  whitespace_only licenseKey = true ->
  (1 <= n)%nat ->
  exists w',
    fetchDeepLinkUrlWithRetry licenseKey fp (Some n) apiEndpoint timeout E w
    = (Ok (failure (lit "License key is required")), w') /\
    sleeps (trace w') = sleeps (trace w) ++ backoff 1 n /\
    List.length (fetches (trace w')) = List.length (fetches (trace w)).
Proof.
  intros Hblank Hn. unfold fetchDeepLinkUrlWithRetry. cbn [default].
  assert (Hinvalid : isValid (validateLicenseKeyFormat licenseKey) = false).
  { destruct (validateLicenseKeyFormat_spec licenseKey) as [-> _].
    now rewrite Hblank. }
  destruct (retry_loop_constant
              (fetchDeepLinkUrl licenseKey fp apiEndpoint timeout) E n
              (failure (lit "License key is required")) 0
              eq_refl eq_refl) with (fuel := S n) (k := 1%nat)
                                    (last := @None DeepLinkResponse) (w := w)
    as (w' & Hloop & Hsl & Hfe); [| lia | lia |].
  - intros w0. exists w0.
    rewrite fetchDeepLinkUrl_invalid by exact Hinvalid. auto.
  - exists w'. split; [exact Hloop |]. split; [exact Hsl |]. lia.
Qed.

Lemma retry_blank_key_witness :
  exists w',
    fetchDeepLinkUrlWithRetry [] sample_fingerprint (Some 3%nat) None None
      offline_env ready_world
    = (Ok (failure (lit "License key is required")), w') /\
    sleeps (trace w') = sleeps (trace ready_world) ++ backoff 1 3 /\
    List.length (fetches (trace w'))
    = List.length (fetches (trace ready_world)).
Proof.
  apply (retry_blank_key [] sample_fingerprint 3 None None offline_env
           ready_world).
  - reflexivity.
  - repeat constructor.
Defined.

(** X8.  When every request times out, [fetchDeepLinkUrlWithRetry] with a
    well-formed key and [n >= 1] attempts issues exactly [n] requests,
    sleeps 1000, 2000, ..., [1000 * (n-1)] ms between them and returns
    "Request timeout". *)
Theorem retry_all_timeouts
    (licenseKey : jsstring) (fp : DeviceFingerprint) (n : nat)
    (apiEndpoint : option jsstring) (timeout : option N)
    (E : env) (w : world) :
  isValid (validateLicenseKeyFormat licenseKey) = true ->
  (1 <= n)%nat ->
  (forall k req, exists e,
     net E k req = NetReject e /\ err_name e = lit "AbortError") ->
  exists w',
    fetchDeepLinkUrlWithRetry licenseKey fp (Some n) apiEndpoint timeout E w
    = (Ok (failure (lit "Request timeout")), w') /\
    sleeps (trace w') = sleeps (trace w) ++ backoff 1 n /\
    List.length (fetches (trace w'))
    = (List.length (fetches (trace w)) + n)%nat.
Proof.
  intros Hvalid Hn Hnet. unfold fetchDeepLinkUrlWithRetry. cbn [default].
  destruct (retry_loop_constant
              (fetchDeepLinkUrl licenseKey fp apiEndpoint timeout) E n
              (failure (lit "Request timeout")) 1
              eq_refl eq_refl) with (fuel := S n) (k := 1%nat)
                                    (last := @None DeepLinkResponse) (w := w)
    as (w' & Hloop & Hsl & Hfe); [| lia | lia |].
  - intros w0. unfold fetchDeepLinkUrl. exec. rewrite Hvalid. cbn [negb].
    match goal with
    | |- context [net E ?k ?req] => destruct (Hnet k req) as (e & -> & Hname)
    end.
    rewrite Hname. eexists. split; [reflexivity |].
    split; [apply sleeps_log_fetch | rewrite fetches_log_fetch; lia].
  - exists w'. split; [exact Hloop |]. split; [exact Hsl |]. lia.
Qed.

Lemma retry_all_timeouts_witness :
  exists w',
    fetchDeepLinkUrlWithRetry (lit "KEY-1") sample_fingerprint (Some 3%nat)
      None None timeout_env ready_world
    = (Ok (failure (lit "Request timeout")), w') /\
    sleeps (trace w') = sleeps (trace ready_world) ++ backoff 1 3 /\
    List.length (fetches (trace w'))
    = (List.length (fetches (trace ready_world)) + 3)%nat.
Proof.
  apply (retry_all_timeouts (lit "KEY-1") sample_fingerprint 3 None None
           timeout_env ready_world).
  - reflexivity.
  - repeat constructor.
  - intros k req. exists aborted. split; reflexivity.
Defined.

(** ** api.ts: license validation at initialization *)

Lemma or_opt_first_truthy a b d :
  or_else (or_opt a b) d = first_truthy [a; b] d.
Proof.
  unfold or_else, or_opt. cbn [first_truthy].
  destruct a as [[| x s] |]; destruct b as [[| y t] |]; reflexivity.
Qed.

(** X9.  [validateLicenseInit] never throws and sends exactly one request,
    to [/custom-deep-link/license/validate] of the base URL, with the key in
    the [x-license-key] header and in the body.  It reports success exactly
    when the reply has a 2xx status and a JSON body whose [success] and
    [valid] both hold, and then it carries no error. *)
Theorem validateLicenseInit_verdict
    (licenseKey : jsstring) (E : env) (w : world) :
  let req :=
    {| req_url :=
         lit "https://api.prodeeplinks.com/custom-deep-link/license/validate";
       req_headers :=
         [(lit "Content-Type", lit "application/json");
          (lit "x-license-key", licenseKey)];
       req_body := BodyValidate licenseKey;
       req_timeout := None |} in
  exists v,
    validateLicenseInit licenseKey E w = (Ok v, log (EvFetch req) w) /\
    (iv_success v = true <->
     exists r d,
       net E (List.length (fetches (trace w))) req = NetResponse r /\
       resp_ok r = true /\ resp_json r = JsonObject d /\
       b_success d = true /\ b_valid d = true) /\
    (iv_success v = true -> iv_error v = None).
Proof.
  intros req.
  assert (Hreq : validate_request
                   (BASE_API_URL ++ lit "/custom-deep-link/license/validate")
                   licenseKey = req) by reflexivity.
  unfold validateLicenseInit. rewrite Hreq. exec.
  destruct (net E _ req) as [e | r] eqn:Hnet.
  { eexists. split; [reflexivity |]. split; [| discriminate].
    split; [discriminate | intros (r & d & [=] & _)]. }
  destruct (resp_json r) as [d | | e] eqn:Hjson; cbn [negb];
    destruct (resp_ok r) eqn:Hok; cbn [negb];
    try (eexists; split; [reflexivity |]; split; [| discriminate];
         split; [discriminate
                | intros (r' & d' & [= <-] & Hok' & Hj' & _); congruence]).
  destruct (b_success d) eqn:Hs; destruct (b_valid d) eqn:Hv; cbn [negb orb];
    try (eexists; split; [reflexivity |]; split; [| discriminate];
         split; [discriminate
                | intros (r' & d' & [= <-] & _ & Hj' & Hs' & Hv');
                  rewrite Hjson in Hj'; injection Hj' as <-; congruence]).
  eexists. split; [reflexivity |]. split; [| reflexivity].
  split; [intros _; exists r, d; auto | reflexivity].
Qed.

(** X10.  The error of a failed [validateLicenseInit]: for a rejected
    request, the message of the error, or "License validation request
    failed" when it is empty, and no status; for a non-2xx reply, the first
    non-empty of the body's [message] and [error], else "License validation
    failed"; for a 2xx reply that lacks [success] or [valid], the same with
    "License is not valid"; a body that is not JSON counts as an empty
    object.  Replies keep their status. *)
Theorem validateLicenseInit_failure_message
    (licenseKey : jsstring) (E : env) (w : world) :
  let req :=
    validate_request (BASE_API_URL ++ lit "/custom-deep-link/license/validate")
      licenseKey in
  let outcome_of := net E (List.length (fetches (trace w))) req in
  let result := fst (validateLicenseInit licenseKey E w) in
  (forall e, outcome_of = NetReject e ->
   result
   = Ok {| iv_success := false;
           iv_error :=
             Some (if truthy (err_message e) then err_message e
                   else lit "License validation request failed");
           iv_status := None; iv_data := None |}) /\
  (forall r d, outcome_of = NetResponse r -> resp_json r = JsonObject d ->
   resp_ok r = false ->
   result
   = Ok {| iv_success := false;
           iv_error :=
             Some (first_truthy [b_message d; b_error d]
                     (lit "License validation failed"));
           iv_status := Some (resp_status r); iv_data := Some (Some d) |}) /\
  (forall r d, outcome_of = NetResponse r -> resp_json r = JsonObject d ->
   resp_ok r = true -> b_success d && b_valid d = false ->
   result
   = Ok {| iv_success := false;
           iv_error :=
             Some (first_truthy [b_message d; b_error d]
                     (lit "License is not valid"));
           iv_status := Some (resp_status r); iv_data := Some (Some d) |}) /\
  (forall r e, outcome_of = NetResponse r -> resp_json r = JsonInvalid e ->
   result
   = Ok {| iv_success := false;
           iv_error :=
             Some (if resp_ok r then lit "License is not valid"
                   else lit "License validation failed");
           iv_status := Some (resp_status r);
           iv_data := Some (Some empty_body) |}).
Proof.
  intros req outcome_of result. subst outcome_of result.
  unfold validateLicenseInit. fold req. exec.
  repeat split.
  - intros e ->. reflexivity.
  - intros r d -> Hjson Hok. rewrite Hjson, Hok. cbn [negb fst mbind option_bind].
    now rewrite or_opt_first_truthy.
  - intros r d -> Hjson Hok Hsv. rewrite Hjson, Hok. cbn [negb fst].
    apply andb_false_iff in Hsv.
    assert (Hcond : negb (b_success d) || negb (b_valid d) = true).
    { destruct Hsv as [-> | ->]; cbn; [reflexivity | apply orb_true_r]. }
    rewrite Hcond. now rewrite or_opt_first_truthy.
  - intros r e -> Hjson. rewrite Hjson. destruct (resp_ok r); reflexivity.
Qed.

(** ** api.ts: the analytics call *)

(** The analytics call is one request and always returns. *)
Lemma trackCustomDeepLinkEvent_run ev key E w :
  exists r,
    trackCustomDeepLinkEvent ev key E w
    = (Ok r, log (EvFetch (analytics_request ev key)) w).
Proof.
  unfold trackCustomDeepLinkEvent. exec.
  destruct (net E _ _) as [e | resp]; [eauto |].
  destruct (resp_json resp); eauto.
Qed.

(** X11.  [trackCustomDeepLinkEvent] never throws and sends exactly one
    request, to the analytics endpoint, whose body is the event as given.
    The [x-license-key] header is sent only for a non-empty key.  Any reply
    is returned as parsed, whatever its HTTP status (an empty object when
    it is not JSON); a rejected request gives [{success: false, error}] with
    the error's message, or "Analytics event tracking failed". *)
Theorem trackCustomDeepLinkEvent_contract
    (ev : analytics_event) (licenseKey : option jsstring)
    (E : env) (w : world) :
  exists r req,
    trackCustomDeepLinkEvent ev licenseKey E w = (Ok r, log (EvFetch req) w) /\
    req_url req
    = lit "https://api.prodeeplinks.com/custom-deep-link/track/event" /\
    req_body req = BodyEvent ev /\
    req_headers req
    = (lit "Content-Type", lit "application/json") ::
      match licenseKey with
      | Some k => if truthy k then [(lit "x-license-key", k)] else []
      | None => []
      end /\
    (forall resp,
       net E (List.length (fetches (trace w))) req = NetResponse resp ->
       r = TrackReply (parsed_reply resp)) /\
    (forall e,
       net E (List.length (fetches (trace w))) req = NetReject e ->
       r = TrackFailure (if truthy (err_message e) then err_message e
                         else lit "Analytics event tracking failed")).
Proof.
  unfold trackCustomDeepLinkEvent. exec.
  destruct (net E _ _) as [e | resp] eqn:Hnet.
  - eexists; eexists. split; [reflexivity |].
    repeat split.
    + intros resp H. rewrite Hnet in H. discriminate.
    + intros e' H. rewrite Hnet in H. now injection H as <-.
  - unfold parsed_reply.
    destruct (resp_json resp) eqn:Hjson;
      (eexists; eexists; split; [reflexivity |]);
      (repeat split;
       [ intros resp' H; rewrite Hnet in H; injection H as <-;
         now rewrite Hjson
       | intros e' H; rewrite Hnet in H; discriminate ]).
Qed.

(** ** index.ts: analytics *)

Lemma trackAnalyticsEvent_not_initialized ev E w :
  not_initialized w = true ->
  trackAnalyticsEvent ev E w = (Ok (TrackFailure NOT_INITIALIZED), w).
Proof.
  intros H. unfold trackAnalyticsEvent, bind, get_world. now rewrite H.
Qed.

(** X12.  After any history of calls in which no [init] has succeeded
    since the start or since the last [reset], [trackAnalyticsEvent] sends
    nothing: it returns [{success: false, error: "Please call init() first
    with your license key"}] and leaves the world as it is. *)
Theorem trackAnalyticsEvent_requires_init
    (E : env) (history : list api_call) (ev : analytics_event) :
  snd (replay E history initial_world false) = false ->
  let w := fst (replay E history initial_world false) in
  trackAnalyticsEvent ev E w
  = (Ok (TrackFailure (lit "Please call init() first with your license key")),
     w).
Proof.
  intros Hlive w. apply trackAnalyticsEvent_not_initialized.
  apply replay_not_live; [reflexivity | exact Hlive].
Qed.

Lemma trackAnalyticsEvent_requires_init_witness :
  let history := [CallInit (lit "KEY-1"); CallReset] in
  let w := fst (replay friendly_env history initial_world false) in
  trackAnalyticsEvent (resolved_event (lit "myapp://promo/42") Api None)
    friendly_env w
  = (Ok (TrackFailure (lit "Please call init() first with your license key")),
     w).
Proof.
  apply (trackAnalyticsEvent_requires_init friendly_env
           [CallInit (lit "KEY-1"); CallReset]
           (resolved_event (lit "myapp://promo/42") Api None)).
  vm_compute. reflexivity.
Defined.

Lemma resolved_event_no_key u src fp :
  resolved_event u src fp !! lit "licenseKey" = None.
Proof. unfold resolved_event. vm_compute. reflexivity. Qed.

(** The one request that [trackDeepLinkResolved] sends once the module is
    initialized. *)
Lemma trackDeepLinkResolved_run u src fp E w :
  not_initialized w = false ->
  trackDeepLinkResolved u src fp E w
  = (Ok tt,
     log (EvFetch (analytics_request (resolved_event u src fp)
                     (storedLicenseKey w))) w).
Proof.
  intros Hinit. unfold trackDeepLinkResolved, trackAnalyticsEvent.
  rewrite (delete_id _ _ (resolved_event_no_key u src fp)).
  destruct (trackCustomDeepLinkEvent_run (resolved_event u src fp)
              (storedLicenseKey w) E w) as [r Hrun].
  unfold try_catch, bind, get_world. rewrite Hinit.
  cbv beta iota. now rewrite Hrun.
Qed.

(** X13.  [trackDeepLinkResolved] never throws.  While the module is not
    initialized it does nothing; otherwise it sends exactly one analytics
    request, with the stored key, whose body is the event it built, as
    built (the event has no [licenseKey] field to strip): type "deeplink",
    name "pro_track", the source as category, the URL as label. *)
Theorem trackDeepLinkResolved_contract
    (u : jsstring) (src : link_source) (fp : option DeviceFingerprint)
    (E : env) (w : world) :
  let event := resolved_event u src fp in
  exists w',
    trackDeepLinkResolved u src fp E w = (Ok tt, w') /\
    (not_initialized w = true -> w' = w) /\
    (not_initialized w = false ->
     w' = log (EvFetch (analytics_request event (storedLicenseKey w))) w) /\
    event !! lit "eventType" = Some (EStr (lit "deeplink")) /\
    event !! lit "eventName" = Some (EStr (lit "pro_track")) /\
    event !! lit "category" = Some (EStr (source_name src)) /\
    event !! lit "action" = Some (EStr (lit "open")) /\
    event !! lit "label" = Some (EStr u) /\
    event !! lit "licenseKey" = None.
Proof.
  intros event. subst event.
  assert (Hfields :
    resolved_event u src fp !! lit "eventType" = Some (EStr (lit "deeplink")) /\
    resolved_event u src fp !! lit "eventName" = Some (EStr (lit "pro_track")) /\
    resolved_event u src fp !! lit "category" = Some (EStr (source_name src)) /\
    resolved_event u src fp !! lit "action" = Some (EStr (lit "open")) /\
    resolved_event u src fp !! lit "label" = Some (EStr u) /\
    resolved_event u src fp !! lit "licenseKey" = None).
  { unfold resolved_event. repeat split; vm_compute; reflexivity. }
  unfold trackDeepLinkResolved, trackAnalyticsEvent.
  destruct (not_initialized w) eqn:Hinit.
  - exists w. split; [| split; [reflexivity | split; [discriminate | exact Hfields]]].
    unfold try_catch, bind, get_world. now rewrite Hinit.
  - eexists. split; [| split; [discriminate | split; [reflexivity | exact Hfields]]].
    fold (trackAnalyticsEvent (resolved_event u src fp)).
    fold (trackDeepLinkResolved u src fp).
    now apply trackDeepLinkResolved_run.
Qed.

(** ** index.ts: the module state *)

(** [init] always returns; a failure leaves the state, a success stores a
    well-formed key and sets the flag. *)
Lemma init_outcome key E w :
  exists r w',
    init key E w = (Ok r, w') /\
    (init_success r = false ->
     storedLicenseKey w' = storedLicenseKey w /\
     isInitialized w' = isInitialized w) /\
    (init_success r = true ->
     storedLicenseKey w' = Some key /\ isInitialized w' = true /\
     isValid (validateLicenseKeyFormat key) = true).
Proof.
  unfold init, try_catch.
  destruct (isValid (validateLicenseKeyFormat key)) eqn:Hvalid; cbn [negb].
  - destruct (validateLicenseInit_run key E w) as (v & Hrun & _).
    unfold bind at 1. rewrite Hrun.
    destruct (iv_success v); cbn [negb];
      eexists; eexists; (split; [reflexivity |]); split;
      solve [discriminate | auto].
  - eexists; eexists. split; [reflexivity |]. split; [auto | discriminate].
Qed.

Lemma state_ok_same w w' live :
  storedLicenseKey w' = storedLicenseKey w ->
  isInitialized w' = isInitialized w ->
  state_ok w live -> state_ok w' live.
Proof. unfold state_ok. intros -> ->. trivial. Qed.

Lemma perform_state_ok c E w live r w' :
  perform c E w = (r, w') ->
  state_ok w live ->
  state_ok w'
    match c, r with
    | CallReset, _ => false
    | CallInit _, Ok true => true
    | _, _ => live
    end.
Proof.
  intros Hp Hok. destruct c as [k | | cb | ev]; cbn [perform] in Hp.
  - destruct (init_outcome k E w) as (r0 & w0 & Hrun & Hfail & Hsucc).
    unfold bind in Hp. rewrite Hrun in Hp. cbn [ret] in Hp.
    injection Hp as <- <-.
    destruct (init_success r0).
    + destruct (Hsucc eq_refl) as (Hk & Hi & Hv). cbn. eauto.
    + destruct (Hfail eq_refl) as (Hk & Hi). eapply state_ok_same; eauto.
  - injection Hp as <- <-. cbn. auto.
  - destruct (stable_getDeepLink cb E w) as (Hk & Hi & _).
    unfold bind in Hp.
    destruct (getDeepLink cb E w) as [[r1 | e] w1]; cbn in *;
      injection Hp as <- <-; eapply state_ok_same; eauto.
  - assert (Hst : stable any_event (trackAnalyticsEvent ev))
      by (apply stable_trackAnalyticsEvent; intros; exact I).
    destruct (Hst E w) as (Hk & Hi & _).
    unfold bind in Hp.
    destruct (trackAnalyticsEvent ev E w) as [[r1 | e] w1]; cbn in *;
      injection Hp as <- <-; eapply state_ok_same; eauto.
Qed.

Lemma replay_state_ok E cs : forall w live,
  state_ok w live ->
  state_ok (fst (replay E cs w live)) (snd (replay E cs w live)).
Proof.
  induction cs as [| c cs IH]; intros w live Hok; cbn [replay]; [exact Hok |].
  destruct (perform c E w) as [r w'] eqn:Hp.
  apply IH. eapply perform_state_ok; eauto.
Qed.

(** X14.  Whatever calls of [init], [reset], [getDeepLink] and
    [trackAnalyticsEvent] were made since the module was loaded, its state
    is one of two: nothing stored and not initialized, or initialized with a
    stored key that passes the format check, the latter exactly when an
    [init] has succeeded and no [reset] followed.  So [isReady()] is true
    exactly when [getDeepLink] and [trackAnalyticsEvent] will not answer
    "Please call init() first". *)
Theorem module_state_invariant (E : env) (history : list api_call) :
  let w := fst (replay E history initial_world false) in
  let live := snd (replay E history initial_world false) in
  state_ok w live /\
  isReady w = live /\
  not_initialized w = negb (isReady w).
Proof.
  intros w live.
  assert (Hok : state_ok w live)
    by (apply replay_state_ok; split; reflexivity).
  split; [exact Hok |].
  unfold state_ok in Hok. unfold isReady, not_initialized.
  destruct live.
  - destruct Hok as (-> & k & -> & Hv). cbn [truthy_opt].
    assert (Hk : truthy k = true).
    { unfold validateLicenseKeyFormat in Hv. destruct k; [discriminate | reflexivity]. }
    rewrite Hk. split; reflexivity.
  - destruct Hok as (-> & ->). split; reflexivity.
Qed.

(** ** index.ts: getDeepLink *)

Lemma bind_thrown {A B} (m : M A) (k : A -> M B) E w e w1 :
  m E w = (Throw e, w1) -> bind m k E w = (Throw e, w1).
Proof. intros H. unfold bind. now rewrite H. Qed.

Lemma probe_thrown E w e :
  getInitialURL E = Throw e ->
  Linking_getInitialURL E w = (Throw e, log EvProbe w).
Proof. intros H. unfold Linking_getInitialURL. exec. now rewrite H. Qed.

(** The retry client always returns, for a positive budget. *)
Lemma retry_returns key fp n ep timeout E w :
  (1 <= n)%nat ->
  exists res w',
    fetchDeepLinkUrlWithRetry key fp (Some n) ep timeout E w = (Ok res, w') /\
    well_formed_response res.
Proof.
  intros Hn. unfold fetchDeepLinkUrlWithRetry. cbn [default].
  destruct (retry_loop_run (fetchDeepLinkUrl key fp ep timeout) E n
              (fun w0 => fetchDeepLinkUrl_run _ _ _ _ E w0) (S n) 1%nat None w)
    as (j & res & w' & Hloop & Hrel & _); [lia | lia |].
  exists res, w'. split; [exact Hloop |].
  clear Hloop.
  induction Hrel as [k w0 r w1 Hrun Hend | k w0 r w1 j r' w2 Hrun Hs Hr Hk Hrel IH];
    [eapply fetchDeepLinkUrl_well_formed; eauto | apply IH; lia].
Qed.

(** The analytics side effect of the API path always returns. *)
Lemma api_side_effect u fp E w :
  exists w',
    try_catch (trackDeepLinkResolved u Api (Some fp)) (fun _ => ret tt) E w
    = (Ok tt, w').
Proof.
  destruct (total_run
              (try_catch (trackDeepLinkResolved u Api (Some fp))
                 (fun _ => ret tt)) E w) as ([] & w' & Hrun); [| eauto].
  apply total_try_catch. intros e. apply total_ret.
Qed.

(** The paths of [getDeepLink] once the module is initialized: the probe
    throws; or the probe gives a URL; or it gives none and the Resolution
    Client is asked, whose result is passed on when usable. *)
Lemma getDeepLink_paths cb E w :
  not_initialized w = false ->
  (exists e,
     getInitialURL E = Throw e /\
     getDeepLink cb E w = (Ok (caught e), log EvProbe w)) \/
  (exists u w2,
     getInitialURL E = Ok (Some u) /\ truthy u = true /\
     try_catch
       (let* fingerprint := generateDeviceFingerprint in
        trackDeepLinkResolved u Linking (Some fingerprint))
       (fun _ => ret tt) E (log EvProbe w) = (Ok tt, w2) /\
     getDeepLink cb E w
     = after_callback cb u
         {| success := true; url := UrlStr u; message := None; error := None |}
         w2) \/
  (exists o fp w1 res w2,
     getInitialURL E = Ok o /\ truthy_opt o = false /\
     generateDeviceFingerprint E (log EvProbe w) = (Ok fp, w1) /\
     fetchDeepLinkUrlWithRetry (default [] (storedLicenseKey w1)) fp
       (Some 3%nat) (Some DEFAULT_API_ENDPOINT) None E w1 = (Ok res, w2) /\
     well_formed_response res /\
     ((usable res = false /\ getDeepLink cb E w = (Ok no_deep_link, w2)) \/
      (usable res = true /\
       exists w3,
         try_catch
           (trackDeepLinkResolved (url_text (url res)) Api (Some fp))
           (fun _ => ret tt) E w2 = (Ok tt, w3) /\
         getDeepLink cb E w = after_callback cb (url_text (url res)) res w3))).
Proof.
  intros Hinit.
  remember (getDeepLink cb E w) as out eqn:Hout.
  unfold getDeepLink in Hout.
  unfold bind at 1, get_world in Hout. rewrite Hinit in Hout.
  unfold try_catch at 1 in Hout.
  destruct (getInitialURL E) as [o | e] eqn:Hprobe.
  2:{ left. exists e. split; [reflexivity |].
      now rewrite (bind_thrown _ _ _ _ _ _ (probe_thrown E w e Hprobe)) in Hout. }
  right.
  rewrite (bind_run _ _ _ _ _ _ (probe_run E w _ Hprobe)) in Hout.
  destruct (truthy_opt o) eqn:Ho.
  - left. destruct o as [u |]; [| discriminate]. cbn [truthy_opt] in Ho.
    cbn [default id] in Hout.
    destruct (linking_side_effect u E (log EvProbe w)) as (w2 & Hside & _).
    exists u, w2. split; [reflexivity |]. split; [exact Ho |].
    split; [exact Hside |].
    rewrite (bind_run _ _ _ _ _ _ Hside) in Hout. rewrite Hout.
    unfold after_callback. destruct cb as [f |]; [| reflexivity].
    unfold call. exec. destruct (f u); reflexivity.
  - right.
    destruct (total_run generateDeviceFingerprint E (log EvProbe w)
                generateDeviceFingerprint_total) as (fp & w1 & Hfp).
    destruct (retry_returns (default [] (storedLicenseKey w1)) fp 3
                (Some DEFAULT_API_ENDPOINT) None E w1)
      as (res & w2 & Hretry & Hwf); [lia |].
    exists o, fp, w1, res, w2.
    split; [reflexivity |]. split; [exact Ho |]. split; [exact Hfp |].
    split; [exact Hretry |]. split; [exact Hwf |].
    rewrite (bind_run _ _ _ _ _ _ Hfp) in Hout.
    unfold bind at 1, get_world in Hout.
    rewrite (bind_run _ _ _ _ _ _ Hretry) in Hout. cbv zeta in Hout.
    fold (usable res) in Hout.
    destruct (usable res) eqn:Hus.
    + right. split; [reflexivity |].
      destruct (api_side_effect (url_text (url res)) fp E w2) as (w3 & Hside).
      exists w3. split; [exact Hside |].
      rewrite (bind_run _ _ _ _ _ _ Hside) in Hout.
      unfold usable in Hus. apply andb_true_iff in Hus as [Hs Hu].
      rewrite Hs, Hu in Hout. cbn [negb orb] in Hout. rewrite Hout.
      unfold after_callback. destruct cb as [f |]; [| reflexivity].
      unfold call. exec. destruct (f (url_text (url res))); reflexivity.
    + left. split; [reflexivity |].
      assert (Hcond : negb (success res) || negb (url_truthy (url res)) = true).
      { unfold usable in Hus. destruct (success res); [| reflexivity].
        cbn in Hus. cbn. now rewrite Hus. }
      rewrite Hcond in Hout. rewrite Hout. destruct cb; reflexivity.
Qed.

Lemma caught_well_formed e : well_formed_response (caught e).
Proof. right. repeat split. cbn. now apply if_truthy. Qed.

Lemma after_callback_cases cb u r w :
  (after_callback cb u r w = (Ok r, w) /\ cb = None) \/
  (exists f, cb = Some f /\ f u = None /\
             after_callback cb u r w = (Ok r, log (EvCallback u) w)) \/
  (exists f e, cb = Some f /\ f u = Some e /\
               after_callback cb u r w = (Ok (caught e), log (EvCallback u) w)).
Proof.
  unfold after_callback. destruct cb as [f |]; [| now left].
  right. destruct (f u) as [e |] eqn:Hf; [right | left]; eauto 6.
Qed.

(** X15.  [getDeepLink] never throws, whatever the probe, the device
    sources, the network and the callback do: it always returns a
    well-formed response (a success without error whose URL is null or a
    non-empty string, or a failure with a non-empty error), and it never
    changes the stored key or the initialized flag. *)
Theorem getDeepLink_safe (cb : option callback) (E : env) (w : world) :
  exists r w',
    getDeepLink cb E w = (Ok r, w') /\
    well_formed_response r /\
    storedLicenseKey w' = storedLicenseKey w /\
    isInitialized w' = isInitialized w.
Proof.
  assert (Hrun : exists r w',
             getDeepLink cb E w = (Ok r, w') /\ well_formed_response r).
  { destruct (not_initialized w) eqn:Hinit.
    - rewrite getDeepLink_not_initialized by exact Hinit.
      eexists; eexists. split; [reflexivity |]. right. repeat split.
    - assert (Hhit : forall u, truthy u = true ->
                well_formed_response
                  {| success := true; url := UrlStr u; message := None;
                     error := None |}).
      { intros u Hu. left. repeat split. right. eauto. }
      assert (Hend : forall u r0 w0,
                well_formed_response r0 ->
                exists r w',
                  after_callback cb u r0 w0 = (Ok r, w') /\
                  well_formed_response r).
      { intros u r0 w0 Hr0.
        destruct (after_callback_cases cb u r0 w0)
          as [[-> _] | [(f & _ & _ & ->) | (f & e & _ & _ & ->)]];
          eauto using caught_well_formed. }
      destruct (getDeepLink_paths cb E w Hinit)
        as [(e & _ & ->) | [(u & w2 & _ & Hu & _ & ->) |
            (o & fp & w1 & res & w2 & _ & _ & _ & _ & Hwf &
             [[_ ->] | (_ & w3 & _ & ->)])]].
      + eauto using caught_well_formed.
      + apply Hend, Hhit, Hu.
      + eexists; eexists. split; [reflexivity |]. left. repeat split. now left.
      + apply Hend, Hwf. }
  destruct Hrun as (r & w' & Hrun & Hwf).
  exists r, w'. split; [exact Hrun |]. split; [exact Hwf |].
  destruct (stable_getDeepLink cb E w) as (Hk & Hi & _).
  rewrite Hrun in Hk, Hi. auto.
Qed.

(** X16.  When the launch-URL probe throws, an initialized [getDeepLink]
    stops there: no fingerprint is collected, no request is sent, the
    callback is not called, and the result is a failure with the message of
    the error, or "Unknown error occurred" when that is empty. *)
Theorem getDeepLink_probe_throws
    (cb : option callback) (E : env) (w : world) (e : jserror) :
  not_initialized w = false ->
  getInitialURL E = Throw e ->
  getDeepLink cb E w
  = (Ok {| success := false; url := UrlAbsent; message := None;
           error :=
             Some (if truthy (err_message e) then err_message e
                   else lit "Unknown error occurred") |},
     log EvProbe w).
Proof.
  intros Hinit Hprobe. unfold getDeepLink.
  unfold bind at 1, get_world. rewrite Hinit.
  unfold try_catch at 1.
  now rewrite (bind_thrown _ _ _ _ _ _ (probe_thrown E w e Hprobe)).
Qed.

Lemma getDeepLink_probe_throws_witness :
  getDeepLink None
    {| net := net offline_env; now := now offline_env;
       getInitialURL := Throw unsupported; device := sample_device |}
    ready_world
  = (Ok {| success := false; url := UrlAbsent; message := None;
           error := Some (lit "not supported") |},
     log EvProbe ready_world).
Proof.
  apply (getDeepLink_probe_throws None
           {| net := net offline_env; now := now offline_env;
              getInitialURL := Throw unsupported; device := sample_device |}
           ready_world unsupported).
  - reflexivity.
  - reflexivity.
Defined.

(** A 2xx reply with [success] decides the attempt. *)
Lemma fetchDeepLinkUrl_reply_run key fp ep timeout E w status d :
  isValid (validateLicenseKeyFormat key) = true ->
  (forall n req,
     net E n req
     = NetResponse {| resp_status := status; resp_json := JsonObject d |}) ->
  200 <= status <= 299 ->
  b_success d = true ->
  fetchDeepLinkUrl key fp ep timeout E w
  = (Ok (if truthy_opt (b_url d) then
           {| success := true; url := UrlStr (default [] (b_url d));
              message := b_message d; error := None |}
         else
           {| success := true; url := UrlNull;
              message := Some (or_else (b_message d)
                                 (lit "No deep link available"));
              error := None |}),
     log (EvFetch
            (resolve_request (or_else ep BASE_API_URL) key
               (BodyResolve key fp (now E (List.length (trace w))))
               (default 10000 timeout))) w).
Proof.
  intros Hvalid Hnet Hstatus Hs.
  unfold fetchDeepLinkUrl. exec. rewrite Hvalid. cbn [negb].
  rewrite Hnet. rewrite resp_ok_2xx by trivial. cbn [resp_json negb].
  rewrite Hs. now destruct (truthy_opt (b_url d)).
Qed.

(** A first attempt that succeeds ends the loop at once. *)
Lemma retry_first_success key fp n ep timeout E w r w1 :
  (1 <= n)%nat ->
  fetchDeepLinkUrl key fp ep timeout E w = (Ok r, w1) ->
  success r = true ->
  fetchDeepLinkUrlWithRetry key fp (Some n) ep timeout E w = (Ok r, w1).
Proof.
  intros Hn Hrun Hs. unfold fetchDeepLinkUrlWithRetry.
  cbn [default id retry_loop].
  destruct (Nat.leb_spec 1 n) as [_ | ?]; [| lia].
  unfold bind at 1. now rewrite Hrun, Hs.
Qed.

Lemma fingerprint_run E w :
  exists fp w1,
    generateDeviceFingerprint E w = (Ok fp, w1) /\
    extends is_device_query w w1.
Proof.
  destruct (total_run generateDeviceFingerprint E w
              generateDeviceFingerprint_total) as (fp & w1 & Hfp).
  exists fp, w1. split; [exact Hfp |].
  assert (Hst : stable is_device_query generateDeviceFingerprint)
    by (apply stable_generateDeviceFingerprint; intros src; now exists src).
  specialize (Hst E w). now rewrite Hfp in Hst.
Qed.

(** X17.  The API path of [getDeepLink].  The module is initialized with a
    well-formed key, the probe gives no URL, and the service answers 2xx
    with [success].  After the probe and the device queries, exactly one
    request goes to the Matching Service (no retry).  Without a URL in the
    reply the result is [{success: true, url: null, message: "No deep link
    available"}], nothing more is sent and the callback is not called.  With
    a URL [u], one analytics request follows (source "api", label [u]), then
    the callback is called with [u], and the result is [{success: true, url:
    u}] with the message of the reply. *)
Theorem getDeepLink_api_reply
    (cb : option callback) (E : env) (w : world) (key : jsstring)
    (o : option jsstring) (status : N) (d : api_body) :
  isInitialized w = true ->
  storedLicenseKey w = Some key ->
  isValid (validateLicenseKeyFormat key) = true ->
  getInitialURL E = Ok o ->
  truthy_opt o = false ->
  (forall n req,
     net E n req
     = NetResponse {| resp_status := status; resp_json := JsonObject d |}) ->
  200 <= status <= 299 ->
  b_success d = true ->
  exists fp w1,
    generateDeviceFingerprint E (log EvProbe w) = (Ok fp, w1) /\
    extends is_device_query (log EvProbe w) w1 /\
    let matching :=
      resolve_request DEFAULT_API_ENDPOINT key
        (BodyResolve key fp (now E (List.length (trace w1)))) 10000 in
    (truthy_opt (b_url d) = false ->
     getDeepLink cb E w
     = (Ok {| success := true; url := UrlNull;
              message := Some (lit "No deep link available");
              error := None |},
        log (EvFetch matching) w1)) /\
    (forall u, b_url d = Some u -> truthy u = true ->
     getDeepLink cb E w
     = after_callback cb u
         {| success := true; url := UrlStr u; message := b_message d;
            error := None |}
         (log (EvFetch (analytics_request (resolved_event u Api (Some fp))
                          (Some key)))
            (log (EvFetch matching) w1))).
Proof.
  intros Hi Hk Hvalid Hprobe Ho Hnet Hstatus Hs.
  assert (Hkey : truthy key = true).
  { unfold validateLicenseKeyFormat in Hvalid.
    destruct key; [discriminate | reflexivity]. }
  assert (Hinit : not_initialized w = false).
  { unfold not_initialized. rewrite Hi, Hk. cbn. now rewrite Hkey. }
  destruct (fingerprint_run E (log EvProbe w)) as (fp & w1 & Hfp & Hext).
  exists fp, w1. split; [exact Hfp |]. split; [exact Hext |].
  destruct Hext as (Hk1 & Hi1 & _). cbn [log storedLicenseKey isInitialized] in Hk1, Hi1.
  intros matching.
  remember (getDeepLink cb E w) as out eqn:Hout.
  unfold getDeepLink in Hout.
  unfold bind at 1, get_world in Hout. rewrite Hinit in Hout.
  unfold try_catch at 1 in Hout.
  rewrite (bind_run _ _ _ _ _ _ (probe_run E w _ Hprobe)) in Hout.
  rewrite Ho in Hout.
  rewrite (bind_run _ _ _ _ _ _ Hfp) in Hout.
  unfold bind at 1, get_world in Hout.
  rewrite Hk1, Hk in Hout. cbn [default id] in Hout.
  pose proof (fetchDeepLinkUrl_reply_run key fp (Some DEFAULT_API_ENDPOINT) None
                E w1 status d Hvalid Hnet Hstatus Hs) as Hattempt.
  change (resolve_request _ key _ _) with matching in Hattempt.
  split.
  - intros Hu. rewrite Hu in Hattempt.
    rewrite (bind_run _ _ _ _ _ _
               (retry_first_success _ _ 3 _ _ _ _ _ _ ltac:(lia) Hattempt eq_refl))
      in Hout.
    cbv zeta in Hout. cbn [success url url_truthy andb negb orb] in Hout.
    rewrite Hout. destruct cb; reflexivity.
  - intros u Hurl Hu. rewrite Hurl in Hattempt. cbn [truthy_opt] in Hattempt.
    rewrite Hu in Hattempt. cbn [default id] in Hattempt.
    rewrite (bind_run _ _ _ _ _ _
               (retry_first_success _ _ 3 _ _ _ _ _ _ ltac:(lia) Hattempt eq_refl))
      in Hout.
    cbv zeta in Hout. cbn [success url url_truthy url_text andb] in Hout.
    rewrite Hu in Hout. cbn [negb orb] in Hout.
    assert (Hinit2 : not_initialized (log (EvFetch matching) w1) = false).
    { unfold not_initialized. cbn [log storedLicenseKey isInitialized].
      rewrite Hi1, Hi, Hk1, Hk. cbn. now rewrite Hkey. }
    pose proof (trackDeepLinkResolved_run u Api (Some fp) E _ Hinit2) as Htrack.
    cbn [log storedLicenseKey] in Htrack. rewrite Hk1, Hk in Htrack.
    rewrite (bind_run _ _ _ _ _ _ (try_catch_ok _ _ _ _ _ _ Htrack)) in Hout.
    rewrite Hout. unfold after_callback. destruct cb as [f |]; [| reflexivity].
    unfold call. exec. destruct (f u); reflexivity.
Qed.

Lemma getDeepLink_api_reply_witness :
  exists fp w1,
    generateDeviceFingerprint hit_env (log EvProbe ready_world) = (Ok fp, w1) /\
    getDeepLink None hit_env ready_world
    = (Ok {| success := true; url := UrlStr (lit "myapp://promo/42");
             message := None; error := None |},
       log (EvFetch (analytics_request
                       (resolved_event (lit "myapp://promo/42") Api (Some fp))
                       (Some (lit "KEY-1"))))
         (log (EvFetch
                 (resolve_request DEFAULT_API_ENDPOINT (lit "KEY-1")
                    (BodyResolve (lit "KEY-1") fp
                       (now hit_env (List.length (trace w1)))) 10000))
            w1)).
Proof.
  destruct (getDeepLink_api_reply None hit_env ready_world (lit "KEY-1") None
              200 body_hit) as (fp & w1 & Hfp & _ & _ & Hhit).
  - reflexivity.
  - reflexivity.
  - reflexivity.
  - reflexivity.
  - reflexivity.
  - intros n req. reflexivity.
  - split; discriminate.
  - reflexivity.
  - exists fp, w1. split; [exact Hfp |].
    apply (Hhit (lit "myapp://promo/42")); reflexivity.
Defined.

Lemma run_extends {A} P (m : M A) E w r w' :
  stable P m -> m E w = (r, w') -> extends P w w'.
Proof. intros Hst Hrun. specialize (Hst E w). now rewrite Hrun in Hst. Qed.

Lemma callbacks_app t1 t2 : callbacks (t1 ++ t2) = callbacks t1 ++ callbacks t2.
Proof. unfold callbacks. apply flat_map_app. Qed.

Lemma extends_no_callback w w' :
  extends no_callback w w' ->
  exists delta, trace w' = trace w ++ delta /\ callbacks delta = [].
Proof.
  intros (_ & _ & d & Ht & Hd). exists d. split; [exact Ht |]. clear Ht.
  induction Hd as [| ev d Hev _ IH]; [reflexivity |].
  destruct ev; cbn in *; solve [exact IH | contradiction].
Qed.

(** The end of a path that found a URL. *)
Lemma after_callback_discipline cb u r0 w w0 :
  extends no_callback w w0 ->
  truthy u = true -> success r0 = true -> url r0 = UrlStr u ->
  callback_discipline cb w (after_callback cb u r0 w0).
Proof.
  intros Hext Hu Hs Hurl.
  destruct (extends_no_callback w w0 Hext) as (d & Ht & Hd).
  destruct (after_callback_cases cb u r0 w0)
    as [[-> Hcb] | [(f & Hcb & Hf & ->) | (f & e & Hcb & Hf & ->)]].
  - exists r0, w0, d. repeat split; auto. intros _ Hne. contradiction.
  - exists r0, (log (EvCallback u) w0), (d ++ [EvCallback u]).
    split; [reflexivity |]. split; [cbn; now rewrite Ht, app_assoc |].
    rewrite callbacks_app, Hd. cbn. split; [| discriminate].
    right. exists f, u. rewrite Hf. auto.
  - exists (caught e), (log (EvCallback u) w0), (d ++ [EvCallback u]).
    split; [reflexivity |]. split; [cbn; now rewrite Ht, app_assoc |].
    rewrite callbacks_app, Hd. cbn. split; [| discriminate].
    right. exists f, u. rewrite Hf. auto.
Qed.

(** The end of a path without URL. *)
Lemma silent_discipline cb w r w' :
  extends no_callback w w' -> usable r = false ->
  callback_discipline cb w (Ok r, w').
Proof.
  intros Hext Hus.
  destruct (extends_no_callback w w' Hext) as (d & Ht & Hd).
  exists r, w', d. repeat split; auto.
Qed.

(** X19.  [getDeepLink] calls the callback at most once, and only with a
    non-empty URL: the URL of the successful result it then returns, unless
    the callback throws, in which case the failure built from the thrown
    error is returned.  When a callback is supplied and not called, the
    result has no usable URL. *)
Theorem getDeepLink_callback_discipline
    (cb : option callback) (E : env) (w : world) :
  exists r w' delta,
    getDeepLink cb E w = (Ok r, w') /\
    trace w' = trace w ++ delta /\
    (callbacks delta = [] \/
     exists f u,
       cb = Some f /\ callbacks delta = [u] /\ truthy u = true /\
       match f u with
       | None => success r = true /\ url r = UrlStr u
       | Some e => r = caught e
       end) /\
    (callbacks delta = [] -> cb <> None -> usable r = false).
Proof.
  change (callback_discipline cb w (getDeepLink cb E w)).
  assert (Hq : forall src, no_callback (EvQuery src)) by (intros; exact I).
  assert (Ha : forall ev k, no_callback (EvFetch (analytics_request ev k)))
    by (intros; exact I).
  destruct (not_initialized w) eqn:Hinit.
  { rewrite getDeepLink_not_initialized by exact Hinit.
    apply silent_discipline; [apply extends_refl | reflexivity]. }
  assert (Hprobe : extends no_callback w (log EvProbe w))
    by (now apply extends_log).
  destruct (getDeepLink_paths cb E w Hinit)
    as [(e & _ & ->) | [(u & w2 & _ & Hu & Hside & ->) |
        (o & fp & w1 & res & w2 & _ & _ & Hfp & Hretry & Hwf &
         [[Hus ->] | (Hus & w3 & Hside & ->)])]].
  - apply silent_discipline; [exact Hprobe | reflexivity].
  - apply after_callback_discipline; auto.
    eapply extends_trans; [exact Hprobe |].
    eapply run_extends; [| exact Hside].
    repeat stable_step;
      [now apply stable_generateDeviceFingerprint
      | now apply stable_trackDeepLinkResolved].
  - apply silent_discipline; [| reflexivity].
    eapply extends_trans; [exact Hprobe |].
    eapply extends_trans.
    + eapply run_extends; [| exact Hfp].
      now apply stable_generateDeviceFingerprint.
    + eapply run_extends; [| exact Hretry].
      apply stable_fetchDeepLinkUrlWithRetry; intros; exact I.
  - unfold usable in Hus. apply andb_true_iff in Hus as [Hs Hu].
    destruct (url res) as [| | v] eqn:Hurl; try discriminate. cbn in Hu.
    cbn [url_text]. apply after_callback_discipline; auto.
    eapply extends_trans; [exact Hprobe |].
    eapply extends_trans.
    + eapply run_extends; [| exact Hfp].
      now apply stable_generateDeviceFingerprint.
    + eapply extends_trans.
      * eapply run_extends; [| exact Hretry].
        apply stable_fetchDeepLinkUrlWithRetry; intros; exact I.
      * eapply run_extends; [| exact Hside].
        repeat stable_step. now apply stable_trackDeepLinkResolved.
Qed.

(** ** index.ts: the class ProDeepLink *)

(** X20.  [new ProDeepLink(config)] throws an Error with the message
    "License key is required" exactly when the key is empty or white space;
    otherwise the instance holds the key as given (not trimmed), without any
    remote validation. *)
Theorem ProDeepLink_new_blank (licenseKey : jsstring) :
  (whitespace_only licenseKey = true ->
   ProDeepLink_new licenseKey
   = Throw {| err_name := lit "Error";
              err_message := lit "License key is required" |}) /\
  (whitespace_only licenseKey = false ->
   ProDeepLink_new licenseKey = Ok {| pd_licenseKey := licenseKey |}).
Proof.
  destruct (validateLicenseKeyFormat_spec licenseKey) as [Hv Hm].
  unfold ProDeepLink_new. rewrite Hv.
  split; intros Hw; rewrite Hw; cbn [negb]; [| reflexivity].
  rewrite Hm; [reflexivity |]. now rewrite Hv, Hw.
Qed.

(** A reply that the validation service accepts. *)
Lemma validateLicenseInit_accepted key E w r d :
  net E (List.length (fetches (trace w)))
    (validate_request (BASE_API_URL ++ lit "/custom-deep-link/license/validate")
       key) = NetResponse r ->
  resp_ok r = true -> resp_json r = JsonObject d ->
  b_success d = true -> b_valid d = true ->
  validateLicenseInit key E w
  = (Ok {| iv_success := true; iv_error := None;
           iv_status := Some (resp_status r); iv_data := Some (Some d) |},
     log (EvFetch
            (validate_request
               (BASE_API_URL ++ lit "/custom-deep-link/license/validate") key))
       w).
Proof.
  intros Hnet Hok Hjson Hs Hv. unfold validateLicenseInit. exec.
  rewrite Hnet, Hjson, Hok. cbn [negb]. rewrite Hs, Hv. reflexivity.
Qed.

Lemma trackDeepLinkResolved_idle u src fp E w :
  not_initialized w = true ->
  trackDeepLinkResolved u src fp E w = (Ok tt, w).
Proof.
  intros Hinit. unfold trackDeepLinkResolved, trackAnalyticsEvent.
  unfold try_catch, bind, get_world. now rewrite Hinit.
Qed.

Lemma stable_fetchDeepLinkUrl_to (P : event -> Prop) key fp ep timeout :
  (forall ts,
     P (EvFetch (resolve_request (or_else ep BASE_API_URL) key
                   (BodyResolve key fp ts) (default 10000 timeout)))) ->
  stable P (fetchDeepLinkUrl key fp ep timeout).
Proof.
  intros HP. unfold fetchDeepLinkUrl. repeat stable_step. apply HP.
Qed.

(** The steps of [getDeepLinkUrl]: the validation; then, if it accepts,
    the fingerprint, the Resolution Client and the analytics side effect. *)
Lemma getDeepLinkUrl_paths this E w :
  let key := pd_licenseKey this in
  let req :=
    validate_request (BASE_API_URL ++ lit "/custom-deep-link/license/validate")
      key in
  exists v,
    validateLicenseInit key E w = (Ok v, log (EvFetch req) w) /\
    ((iv_success v = false /\
      truthy_opt (iv_error v) = true /\
      getDeepLinkUrl this E w
      = (Ok (failure (or_else (iv_error v) (lit "License validation failed"))),
         log (EvFetch req) w)) \/
     (iv_success v = true /\
      exists fp w1 res w2 w3,
        generateDeviceFingerprint E (log (EvFetch req) w) = (Ok fp, w1) /\
        fetchDeepLinkUrlWithRetry key fp (Some 3%nat)
          (Some DEFAULT_API_ENDPOINT) None E w1 = (Ok res, w2) /\
        well_formed_response res /\
        (if usable res then
           try_catch (trackDeepLinkResolved (url_text (url res)) Api (Some fp))
             (fun _ => ret tt) E w2 = (Ok tt, w3)
         else w3 = w2) /\
        getDeepLinkUrl this E w = (Ok res, w3))).
Proof.
  intros key req.
  destruct (validateLicenseInit_run key E w) as (v & Hrun & _ & Hno).
  fold req in Hrun. exists v. split; [exact Hrun |].
  unfold getDeepLinkUrl. fold key. rewrite (bind_run _ _ _ _ _ _ Hrun).
  destruct (iv_success v) eqn:Hv; cbn [negb].
  - right. split; [reflexivity |].
    destruct (total_run generateDeviceFingerprint E (log (EvFetch req) w)
                generateDeviceFingerprint_total) as (fp & w1 & Hfp).
    destruct (retry_returns key fp 3 (Some DEFAULT_API_ENDPOINT) None E w1)
      as (res & w2 & Hretry & Hwf); [lia |].
    rewrite (bind_run _ _ _ _ _ _ Hfp), (bind_run _ _ _ _ _ _ Hretry).
    fold (usable res). destruct (usable res) eqn:Hus.
    + destruct (api_side_effect (url_text (url res)) fp E w2) as (w3 & Hside).
      exists fp, w1, res, w2, w3. rewrite Hus.
      rewrite (bind_run _ _ _ _ _ _ Hside). auto.
    + exists fp, w1, res, w2, w2. rewrite Hus. auto.
  - left. split; [reflexivity |]. split; [now apply Hno | reflexivity].
Qed.

(** X21.  [getDeepLinkUrl] never throws and never changes the module
    state; it returns a well-formed response, and its first request is
    always the remote validation of the key.  Unless the validation service
    answers 2xx with [success] and [valid], nothing else happens: no
    fingerprint is collected, no other request is sent, and the result is a
    failure with a non-empty error. *)
Theorem getDeepLinkUrl_validates_first
    (this : ProDeepLink) (E : env) (w : world) :
  let req :=
    validate_request (BASE_API_URL ++ lit "/custom-deep-link/license/validate")
      (pd_licenseKey this) in
  exists r w' rest,
    getDeepLinkUrl this E w = (Ok r, w') /\
    well_formed_response r /\
    storedLicenseKey w' = storedLicenseKey w /\
    isInitialized w' = isInitialized w /\
    trace w' = trace w ++ EvFetch req :: rest /\
    ((forall resp d,
        net E (List.length (fetches (trace w))) req = NetResponse resp ->
        resp_ok resp = true -> resp_json resp = JsonObject d ->
        b_success d && b_valid d = false) ->
     rest = [] /\ success r = false).
Proof.
  intros req.
  destruct (getDeepLinkUrl_paths this E w) as (v & Hrun & Hcases).
  fold req in Hrun, Hcases.
  destruct (validateLicenseInit_run (pd_licenseKey this) E w)
    as (v' & Hrun' & Hyes & _).
  fold req in Hrun', Hyes. rewrite Hrun in Hrun'. injection Hrun' as <-.
  destruct Hcases as [(Hv & Herr & ->) |
                      (Hv & fp & w1 & res & w2 & w3 & Hfp & Hretry & Hwf & Hside & ->)].
  - exists (failure (or_else (iv_error v) (lit "License validation failed"))),
      (log (EvFetch req) w), [].
    split; [reflexivity |]. split; [apply failure_well_formed; truthy_message |].
    repeat split.
  - assert (Hext : extends any_event (log (EvFetch req) w) w3).
    { eapply extends_trans.
      - eapply run_extends; [| exact Hfp].
        apply stable_generateDeviceFingerprint. intros; exact I.
      - eapply extends_trans.
        + eapply run_extends; [| exact Hretry].
          apply stable_fetchDeepLinkUrlWithRetry; intros; exact I.
        + destruct (usable res); [| subst w3; apply extends_refl].
          eapply run_extends; [| exact Hside].
          repeat stable_step. apply stable_trackDeepLinkResolved. intros; exact I. }
    destruct Hext as (Hk & Hi & d & Ht & _).
    exists res, w3, d. split; [reflexivity |]. split; [exact Hwf |].
    split; [exact Hk |]. split; [exact Hi |].
    split; [rewrite Ht; cbn; now rewrite <- app_assoc |].
    intros Hreject. exfalso.
    destruct (Hyes Hv) as (resp & body & Hnet & Hok & Hjson & Hs & Hval).
    specialize (Hreject resp body Hnet Hok Hjson).
    rewrite Hs, Hval in Hreject. discriminate.
Qed.

Lemma validate_request_no_analytics key :
  no_analytics
    (EvFetch
       (validate_request
          (BASE_API_URL ++ lit "/custom-deep-link/license/validate") key)).
Proof.
  unfold no_analytics, validate_request. cbn [req_url].
  intros H. vm_compute in H. discriminate H.
Qed.

Lemma resolve_request_no_analytics key body timeout :
  no_analytics (EvFetch (resolve_request DEFAULT_API_ENDPOINT key body timeout)).
Proof.
  unfold no_analytics, resolve_request. cbn [req_url].
  intros H. vm_compute in H. discriminate H.
Qed.

(** An attempt fails when the Matching Service is down, whatever the
    other services do. *)
Lemma fetchDeepLinkUrl_matching_down key fp ep timeout E :
  (forall n req, is_matching_call (EvFetch req) = true ->
                 transport_failure (net E n req) = true) ->
  forall w r w',
    fetchDeepLinkUrl key fp ep timeout E w = (Ok r, w') -> success r = false.
Proof.
  intros Hnet w r w'. unfold fetchDeepLinkUrl. exec.
  destruct (isValid (validateLicenseKeyFormat key)); cbn [negb].
  - match goal with
    | |- context [net E ?n ?req] =>
        pose proof (Hnet n req eq_refl) as Hfail;
        destruct (net E n req) as [e | resp]
    end.
    + destruct (eqb (err_name e) (lit "AbortError")); now intros [= <- _].
    + cbn [transport_failure] in Hfail. rewrite Hfail.
      destruct (resp_json resp); now intros [= <- _].
  - now intros [= <- _].
Qed.

(** X22.  Unlike [getDeepLink], [getDeepLinkUrl] surfaces the failure of
    the Resolution Client: when the validation service accepts the key and
    every request to the Matching Service fails at the transport level, the
    result has [success = false] and a non-empty error, and no analytics
    request is sent. *)
Theorem getDeepLinkUrl_surfaces_failure
    (this : ProDeepLink) (E : env) (w : world)
    (resp : response) (d : api_body) :
  let req :=
    validate_request (BASE_API_URL ++ lit "/custom-deep-link/license/validate")
      (pd_licenseKey this) in
  net E (List.length (fetches (trace w))) req = NetResponse resp ->
  resp_ok resp = true -> resp_json resp = JsonObject d ->
  b_success d = true -> b_valid d = true ->
  (forall n r, is_matching_call (EvFetch r) = true ->
               transport_failure (net E n r) = true) ->
  exists r w',
    getDeepLinkUrl this E w = (Ok r, w') /\
    success r = false /\ truthy_opt (error r) = true /\
    extends no_analytics w w'.
Proof.
  intros req Hnet Hok Hjson Hs Hv Hdown.
  pose proof (validateLicenseInit_accepted _ E w resp d Hnet Hok Hjson Hs Hv)
    as Haccept. fold req in Haccept.
  destruct (getDeepLinkUrl_paths this E w) as (v & Hrun & Hcases).
  fold req in Hrun, Hcases. rewrite Haccept in Hrun. injection Hrun as <-.
  destruct Hcases as [(Hno & _) |
                      (_ & fp & w1 & res & w2 & w3 & Hfp & Hretry & Hwf & Hside & ->)];
    [discriminate |].
  assert (Hfail : success res = false).
  { revert Hretry. unfold fetchDeepLinkUrlWithRetry. cbn [default id]. intros Hretry.
    destruct (retry_loop_run
                (fetchDeepLinkUrl (pd_licenseKey this) fp
                   (Some DEFAULT_API_ENDPOINT) None)
                E 3 (fun w0 => fetchDeepLinkUrl_run _ _ _ _ E w0) 4 1%nat None w1)
      as (j & res' & w2' & Hloop & Hrel & _); [lia | lia |].
    rewrite Hretry in Hloop. injection Hloop as <- <-.
    eapply retry_run_failure; [| exact Hrel].
    now apply fetchDeepLinkUrl_matching_down. }
  assert (Hus : usable res = false) by (unfold usable; now rewrite Hfail).
  rewrite Hus in Hside. subst w3.
  exists res, w2. split; [reflexivity |]. split; [exact Hfail |]. split.
  - destruct Hwf as [(Ht & _) | (_ & _ & He)]; [congruence | exact He].
  - eapply extends_trans.
    + apply extends_log, validate_request_no_analytics.
    + eapply extends_trans.
      * eapply run_extends; [| exact Hfp].
        apply stable_generateDeviceFingerprint. intros; exact I.
      * eapply run_extends; [| exact Hretry].
        apply stable_retry_loop; [| intros; exact I].
        apply stable_fetchDeepLinkUrl_to. intros ts.
        apply resolve_request_no_analytics.
Qed.

Lemma getDeepLinkUrl_surfaces_failure_witness :
  exists r w',
    getDeepLinkUrl {| pd_licenseKey := lit "KEY-1" |} validation_only_env
      ready_world = (Ok r, w') /\
    success r = false /\ truthy_opt (error r) = true /\
    extends no_analytics ready_world w'.
Proof.
  apply (getDeepLinkUrl_surfaces_failure {| pd_licenseKey := lit "KEY-1" |}
           validation_only_env ready_world
           {| resp_status := 200;
              resp_json :=
                JsonObject {| b_success := true; b_valid := true;
                              b_url := None; b_message := None;
                              b_error := None |} |}
           {| b_success := true; b_valid := true; b_url := None;
              b_message := None; b_error := None |}).
  - reflexivity.
  - reflexivity.
  - reflexivity.
  - reflexivity.
  - reflexivity.
  - intros n r Hr. cbn in Hr. cbn.
    destruct (req_body r); try discriminate. reflexivity.
Defined.

(** X23.  [getDeepLinkUrl] depends on the module state for its analytics
    only: while [init] has not succeeded, a [ProDeepLink] instance resolves
    links as usual but never sends a request to the analytics endpoint, not
    even for a Hit. *)
Theorem getDeepLinkUrl_no_analytics_without_init
    (this : ProDeepLink) (E : env) (w : world) :
  not_initialized w = true ->
  exists r w',
    getDeepLinkUrl this E w = (Ok r, w') /\
    extends no_analytics w w'.
Proof.
  intros Hinit.
  destruct (getDeepLinkUrl_paths this E w) as (v & Hrun & Hcases).
  assert (Hreq : extends no_analytics w
                   (log (EvFetch
                           (validate_request
                              (BASE_API_URL
                               ++ lit "/custom-deep-link/license/validate")
                              (pd_licenseKey this))) w)).
  { apply extends_log, validate_request_no_analytics. }
  destruct Hcases as [(_ & _ & ->) |
                      (_ & fp & w1 & res & w2 & w3 & Hfp & Hretry & _ & Hside & ->)].
  - eauto.
  - exists res, w3. split; [reflexivity |].
    assert (Hw2 : extends no_analytics w w2).
    { eapply extends_trans; [exact Hreq |].
      eapply extends_trans.
      - eapply run_extends; [| exact Hfp].
        apply stable_generateDeviceFingerprint. intros; exact I.
      - eapply run_extends; [| exact Hretry].
        apply stable_retry_loop; [| intros; exact I].
        apply stable_fetchDeepLinkUrl_to. intros ts.
        apply resolve_request_no_analytics. }
    destruct (usable res); [| now subst w3].
    assert (Hinit2 : not_initialized w2 = true)
      by (rewrite (extends_not_initialized _ _ _ Hw2); exact Hinit).
    rewrite (try_catch_ok _ _ _ _ _ _
               (trackDeepLinkResolved_idle _ Api (Some fp) E w2 Hinit2)) in Hside.
    injection Hside as <-. exact Hw2.
Qed.

Lemma getDeepLinkUrl_no_analytics_without_init_witness :
  exists r w',
    getDeepLinkUrl {| pd_licenseKey := lit "KEY-1" |} hit_env initial_world
    = (Ok r, w') /\
    extends no_analytics initial_world w'.
Proof.
  apply (getDeepLinkUrl_no_analytics_without_init
           {| pd_licenseKey := lit "KEY-1" |} hit_env initial_world).
  reflexivity.
Defined.

(** ** api.ts: the custom endpoints *)

Lemma drop_slashes_split s :
  exists k, s = repeat slash k ++ drop_slashes s.
Proof.
  induction s as [| c s (k & IH)]; [now exists 0%nat |].
  cbn [drop_slashes]. destruct (N.eqb_spec c slash) as [-> | Hc].
  - exists (S k). cbn. now rewrite <- IH.
  - now exists 0%nat.
Qed.

Lemma drop_slashes_head s r : drop_slashes s <> slash :: r.
Proof.
  induction s as [| c s IH]; cbn [drop_slashes]; [discriminate |].
  destruct (N.eqb_spec c slash) as [-> | Hc]; [exact IH |].
  intros [= -> _]. now apply Hc.
Qed.

Lemma rev_repeat {A} (x : A) k : rev (repeat x k) = repeat x k.
Proof.
  induction k as [| k IH]; [reflexivity |].
  cbn [repeat rev]. rewrite IH. clear IH.
  induction k as [| k IH]; [reflexivity |]. cbn. now rewrite IH.
Qed.

(** Stripping removes the trailing slashes, all of them, and nothing
    else. *)
Lemma strip_trailing_slashes_spec s :
  (exists k, s = strip_trailing_slashes s ++ repeat slash k) /\
  (forall b, strip_trailing_slashes s <> b ++ [slash]).
Proof.
  unfold strip_trailing_slashes. split.
  - destruct (drop_slashes_split (rev s)) as (k & Hk). exists k.
    rewrite <- (rev_involutive s) at 1. rewrite Hk at 1.
    now rewrite rev_app_distr, rev_repeat.
  - intros b H. apply (f_equal (@rev N)) in H.
    rewrite rev_involutive, rev_app_distr in H. cbn in H.
    now apply drop_slashes_head in H.
Qed.

(** X24.  [matchFingerprintCustom] never throws and sends exactly one
    request.  Its URL is the base followed by
    "/custom-deep-link/fingerprint/match", where the base is the given base
    URL, trimmed and without its trailing slashes (all of them, and nothing
    else), or "https://api.prodeeplinks.com" when none or an empty one is
    given.  The [x-license-key] header is sent only for a non-empty key.
    The reply is returned as parsed whatever its status; a rejected request
    gives the failure object with the error's message, or "Fingerprint
    match failed". *)
Theorem matchFingerprintCustom_contract
    (payload : FingerprintMatchPayload) (baseUrl licenseKey : option jsstring)
    (E : env) (w : world) :
  exists r req base,
    matchFingerprintCustom payload baseUrl licenseKey E w
    = (Ok r, log (EvFetch req) w) /\
    req_url req = base ++ lit "/custom-deep-link/fingerprint/match" /\
    (exists k, trim (or_else baseUrl BASE_API_URL) = base ++ repeat slash k) /\
    (forall b, base <> b ++ [slash]) /\
    (truthy_opt baseUrl = false -> base = lit "https://api.prodeeplinks.com") /\
    req_headers req
    = (lit "Content-Type", lit "application/json") ::
      match licenseKey with
      | Some k => if truthy k then [(lit "x-license-key", k)] else []
      | None => []
      end /\
    req_body req = BodyEvent (match_payload_json payload) /\
    (forall resp,
       net E (List.length (fetches (trace w))) req = NetResponse resp ->
       r = MatchReply (parsed_reply resp)) /\
    (forall e,
       net E (List.length (fetches (trace w))) req = NetReject e ->
       r = MatchFailure (if truthy (err_message e) then err_message e
                         else lit "Fingerprint match failed")).
Proof.
  destruct (strip_trailing_slashes_spec (trim (or_else baseUrl BASE_API_URL)))
    as [Hsplit Hlast].
  assert (Hdefault : truthy_opt baseUrl = false ->
            strip_trailing_slashes (trim (or_else baseUrl BASE_API_URL))
            = lit "https://api.prodeeplinks.com").
  { intros Hb. replace (or_else baseUrl BASE_API_URL) with BASE_API_URL.
    - vm_compute. reflexivity.
    - unfold or_else. destruct baseUrl as [b |]; [| reflexivity].
      cbn in Hb. now rewrite Hb. }
  unfold matchFingerprintCustom. exec.
  set (req := {| req_url := _; req_headers := _; req_body := _;
                 req_timeout := _ |}).
  destruct (net E _ req) as [e | resp] eqn:Hnet.
  - exists (MatchFailure (or_else (Some (err_message e))
                            (lit "Fingerprint match failed"))), req,
      (strip_trailing_slashes (trim (or_else baseUrl BASE_API_URL))).
    repeat split; auto.
    + intros resp H. rewrite Hnet in H. discriminate.
    + intros e' H. rewrite Hnet in H. now injection H as <-.
  - exists (MatchReply (parsed_reply resp)), req,
      (strip_trailing_slashes (trim (or_else baseUrl BASE_API_URL))).
    split; [unfold parsed_reply; now destruct (resp_json resp) |].
    repeat split; auto.
    + intros resp' H. rewrite Hnet in H. now injection H as <-.
    + intros e' H. rewrite Hnet in H. discriminate.
Qed.

(** X25.  [validateLicenseCustom] never throws and sends exactly one
    request: to the trimmed base URL followed by the trimmed prefix and
    "/custom-deep-link/license/validate" (the bare path when no options are
    given), with the key, the domain and the IP address in the body, the
    latter two empty when not given, and without an [x-license-key] header.
    The reply is returned as parsed whatever its status; a rejected request
    gives [{success: false, error}] with the error's message, or "License
    validate failed". *)
Theorem validateLicenseCustom_contract
    (licenseKey : jsstring) (opts : option validate_opts)
    (E : env) (w : world) :
  exists r req (body : analytics_event),
    validateLicenseCustom licenseKey opts E w = (Ok r, log (EvFetch req) w) /\
    req_url req
    = trim (or_else (o ← opts; vo_baseUrl o) [])
      ++ trim (or_else (o ← opts; vo_apiPrefix o) [])
      ++ lit "/custom-deep-link/license/validate" /\
    (opts = None -> req_url req = lit "/custom-deep-link/license/validate") /\
    req_headers req = [(lit "Content-Type", lit "application/json")] /\
    req_body req = BodyEvent body /\
    body !! lit "licenseKey" = Some (EStr licenseKey) /\
    body !! lit "domain" = Some (EStr (or_else (o ← opts; vo_domain o) [])) /\
    body !! lit "ipAddress"
    = Some (EStr (or_else (o ← opts; vo_ipAddress o) [])) /\
    (forall resp,
       net E (List.length (fetches (trace w))) req = NetResponse resp ->
       r = CustomReply (parsed_reply resp)) /\
    (forall e,
       net E (List.length (fetches (trace w))) req = NetReject e ->
       r = CustomFailure (if truthy (err_message e) then err_message e
                          else lit "License validate failed")).
Proof.
  unfold validateLicenseCustom. exec.
  set (req := {| req_url := _; req_headers := _; req_body := _;
                 req_timeout := _ |}).
  assert (Hbody :
    custom_validate_body licenseKey (or_else (o ← opts; vo_domain o) [])
      (or_else (o ← opts; vo_ipAddress o) []) !! lit "licenseKey"
    = Some (EStr licenseKey) /\
    custom_validate_body licenseKey (or_else (o ← opts; vo_domain o) [])
      (or_else (o ← opts; vo_ipAddress o) []) !! lit "domain"
    = Some (EStr (or_else (o ← opts; vo_domain o) [])) /\
    custom_validate_body licenseKey (or_else (o ← opts; vo_domain o) [])
      (or_else (o ← opts; vo_ipAddress o) []) !! lit "ipAddress"
    = Some (EStr (or_else (o ← opts; vo_ipAddress o) []))).
  { generalize (or_else (o ← opts; vo_domain o) []).
    generalize (or_else (o ← opts; vo_ipAddress o) []).
    intros ip dom. unfold custom_validate_body.
    repeat split; vm_compute; reflexivity. }
  destruct Hbody as (Hb1 & Hb2 & Hb3).
  assert (Hnone : opts = None ->
                  req_url req = lit "/custom-deep-link/license/validate").
  { intros ->. vm_compute. reflexivity. }
  destruct (net E _ req) as [e | resp] eqn:Hnet.
  - exists (CustomFailure (or_else (Some (err_message e))
                             (lit "License validate failed"))), req.
    eexists. split; [reflexivity |].
    repeat split; eauto.
    + intros resp H. rewrite Hnet in H. discriminate.
    + intros e' H. rewrite Hnet in H. now injection H as <-.
  - exists (CustomReply (parsed_reply resp)), req. eexists.
    split; [unfold parsed_reply; now destruct (resp_json resp) |].
    repeat split; eauto.
    + intros resp' H. rewrite Hnet in H. now injection H as <-.
    + intros e' H. rewrite Hnet in H. discriminate.
Qed.
